(** * quantum-image-processor: the asynchronous processing pipeline of [app.py]

    A shallow embedding of [ProductionQuantumProcessor] (the three numeric
    transforms) and of [RealTimeProcessor] (task queue, results cache,
    statistics), followed by the properties of the pipeline.

    Conventions of the embedding.
    - A numpy [float64] is a real number of [R]: rounding, infinities and
      NaN are not modelled. Edge detection has a second embedding, on
      pixels that may be NaN ([float64]).
    - A 2D [ndarray] carries its shape next to its rows.
    - A Python [dict] with string keys is a [gmap string _].
    - Clock readings ([time.time()], [datetime.now().isoformat()]) and the
      draws of [np.random.random] are inputs of a processing step ([env]).
    - Worker threads are interleaved at the granularity of one loop
      iteration: an operation [Work] is one iteration of
      [_processing_worker] by some worker. *)

From Stdlib Require Import Reals Lra ZArith.
From stdpp Require Import gmap strings list fin_maps pretty.

Local Open Scope R_scope.

(** ** numpy arrays *)

Record ndarray := mk_ndarray {
  nrows : nat;
  ncols : nat;
  rows : list (list R)
}.

Definition wf_ndarray (a : ndarray) : Prop :=
  length (rows a) = nrows a ∧ Forall (λ r, length r = ncols a) (rows a).

Definition shape (a : ndarray) : nat * nat := (nrows a, ncols a).

(** [a.size] *)
Definition size_of (a : ndarray) : nat := (nrows a * ncols a)%nat.

(** [a.flatten()] *)
Definition flatten (a : ndarray) : list R := concat (rows a).

(** [a[i, j]] *)
Definition at_ (a : ndarray) (i j : nat) : R := nth j (nth i (rows a) []) 0.

(** Build the [h]-by-[w] array whose element [(i, j)] is [f i j]. *)
Definition tabulate (h w : nat) (f : nat → nat → R) : ndarray :=
  mk_ndarray h w (map (λ i, map (f i) (seq 0 w)) (seq 0 h)).

Definition map_ndarray (f : R → R) (a : ndarray) : ndarray :=
  mk_ndarray (nrows a) (ncols a) (map (map f) (rows a)).

Definition zeros (h w : nat) : ndarray :=
  mk_ndarray h w (replicate h (replicate w 0)).

(** Element-wise binary operation on two arrays of the same shape. *)
Definition map2_ndarray (f : R → R → R) (a b : ndarray) : ndarray :=
  mk_ndarray (nrows a) (ncols a) (zip_with (zip_with f) (rows a) (rows b)).

(** ** Exceptions *)

Inductive exn :=
  | ValueError (msg : string)
  | ZeroDivisionError (msg : string).

(** [str(e)] *)
Definition str (e : exn) : string :=
  match e with
  | ValueError msg => msg
  | ZeroDivisionError msg => msg
  end.

(** A computation that returns a value or raises. *)
Definition raising (A : Type) : Type := (exn + A)%type.

Definition raise {A} (e : exn) : raising A := inl e.
Definition ret {A} (x : A) : raising A := inr x.
Definition bind {A B} (c : raising A) (k : A → raising B) : raising B :=
  match c with
  | inl e => inl e
  | inr x => k x
  end.

Notation "x <~ c ;; k" := (bind c (λ x, k))
  (at level 100, c at next level, right associativity).

(** ** numpy reductions *)

Definition np_sum (l : list R) : R := foldr Rplus 0 l.

Definition np_mean (l : list R) : R := np_sum l / INR (length l).

Definition np_var (l : list R) : R :=
  let m := np_mean l in np_mean (map (λ x, Rabs (x - m) ^ 2) l).

Definition np_std (l : list R) : R := sqrt (np_var l).

Definition zero_size (op : string) : string :=
  "zero-size array to reduction operation " +:+ op +:+ " which has no identity".

Definition np_min (l : list R) : raising R :=
  match l with
  | [] => raise (ValueError (zero_size "minimum"))
  | x :: t => ret (foldl Rmin x t)
  end.

Definition np_max (l : list R) : raising R :=
  match l with
  | [] => raise (ValueError (zero_size "maximum"))
  | x :: t => ret (foldl Rmax x t)
  end.

(** ** [np.gradient] with unit spacing and first-order edges *)

Definition gradient_too_small : string :=
  "Shape of array too small to calculate a numerical gradient, at least (edge_order + 1) elements are required.".

(** The gradient at index [i] of the [n] samples [f 0 .. f (n-1)]:
    one-sided differences at both ends, central differences inside. *)
Definition gradient1 (n : nat) (f : nat → R) (i : nat) : R :=
  if (i =? 0)%nat then (f 1%nat - f 0%nat) / 1
  else if (i =? n - 1)%nat then (f (n - 1)%nat - f (n - 2)%nat) / 1
  else (f (i + 1)%nat - f (i - 1)%nat) / (2 * 1).

Inductive axis := Axis0 | Axis1.

Definition np_gradient (a : ndarray) (ax : axis) : raising ndarray :=
  match ax with
  | Axis1 =>
      if (ncols a <? 2)%nat then raise (ValueError gradient_too_small)
      else ret (tabulate (nrows a) (ncols a)
                  (λ i j, gradient1 (ncols a) (λ k, at_ a i k) j))
  | Axis0 =>
      if (nrows a <? 2)%nat then raise (ValueError gradient_too_small)
      else ret (tabulate (nrows a) (ncols a)
                  (λ i j, gradient1 (nrows a) (λ k, at_ a k j) i))
  end.

(** [np.clip(x, lo, hi)] *)
Definition np_clip (lo hi x : R) : R := Rmin (Rmax x lo) hi.

(** ** ProductionQuantumProcessor *)

Definition enhancement_factor : R := 1.2.

Definition quantum_edge_detection (image_data : ndarray) : raising ndarray :=
  grad_x <~ np_gradient image_data Axis1 ;;
  grad_y <~ np_gradient image_data Axis0 ;;
  let edges := map2_ndarray (λ gx gy, sqrt (gx ^ 2 + gy ^ 2)) grad_x grad_y in
  let enhanced_edges := map_ndarray (λ e, e * enhancement_factor) edges in
  ret (map_ndarray (np_clip 0 1) enhanced_edges).

(** A complex number, as its real and imaginary parts. *)
Definition complex : Type := (R * R)%type.

(** [compression_ratio = 0.25]; [int(n * 0.25)] is [n / 4] on naturals. *)
Definition compressed_size_of (n : nat) : nat := Nat.max (n / 4) 16.

Definition quantum_image_compression (rand1 rand2 : nat → R)
    (image_data : ndarray) : list complex * nat :=
  let flat_data := flatten image_data in
  let compressed_size := compressed_size_of (length flat_data) in
  let compressed_data :=
    map (λ k, (rand1 k, 0.5 * rand2 k)) (seq 0 compressed_size) in
  (compressed_data, Nat.min 8 (Nat.log2 compressed_size)).

(** [l[start::step]] *)
Fixpoint strided {A} (step skip : nat) (l : list A) : list A :=
  match l with
  | [] => []
  | x :: t =>
      match skip with
      | O => x :: strided step (step - 1) t
      | S k => strided step k t
      end
  end.

(** [len(range(start, n, 4))] *)
Definition slice_len (start n : nat) : nat := ((n - start + 3) / 4)%nat.

(** [a[i::4, i::4]] *)
Definition patch_of (a : ndarray) (i : nat) : ndarray :=
  mk_ndarray (slice_len i (nrows a)) (slice_len i (ncols a))
    (map (strided 4 i) (strided 4 i (rows a))).

(** The texture loop [for i in range(4)], started from [features]. *)
Definition texture_loop (image_data : ndarray) (features : list R) : list R :=
  foldl (λ features i,
           let patch := patch_of image_data i in
           if (0 <? size_of patch)%nat
           then features ++ [np_var (flatten patch)]
           else features)
        features (seq 0 4).

Definition quantum_feature_extraction (image_data : ndarray) : raising (list R) :=
  let flat := flatten image_data in
  lo <~ np_min flat ;;
  hi <~ np_max flat ;;
  ret (texture_loop image_data [np_mean flat; np_std flat; lo; hi]).

(** ** Values stored in the results cache *)

(** The values of the inner ['result'] dictionary. *)
Inductive pyval :=
  | PStr (s : string)
  | PInt (z : Z)
  | PFloat (r : R)
  | PShape (h w : nat).

(** The values of a cache entry: the ['result'] dictionary, and the
    nested lists made by [edge_map.tolist()] and [features.tolist()]. *)
Inductive cacheval :=
  | CDict (d : gmap string pyval)
  | CMatrix (m : list (list R))
  | CVector (v : list R).

(** ** RealTimeProcessor *)

Record Stats := mk_stats {
  processed_images : nat;
  total_processing_time : R;
  average_processing_time : R;
  queue_size : nat;
  errors : nat;
  last_processed : option string
}.

(** A queued task: [(image_id, image_data)]; [None] is the sentinel on
    which a worker leaves its loop. *)
Definition task : Type := option (string * ndarray).

Record RealTimeProcessor := mk_processor {
  processing_queue : list task;
  results_cache : gmap string (gmap string cacheval);
  max_workers : nat;
  is_running : bool;
  stats : Stats
}.

(** What one call of [_process_image] reads from its environment: the two
    readings of [time.time()], the two of [datetime.now().isoformat()],
    and the two draws of [np.random.random]. *)
Record env := mk_env {
  t_start : R;
  t_end : R;
  now_result : string;
  now_stats : string;
  rand1 : nat → R;
  rand2 : nat → R
}.

Definition set_queue (q : list task) (s : RealTimeProcessor) : RealTimeProcessor :=
  mk_processor q (results_cache s) (max_workers s) (is_running s) (stats s).

Definition set_cache (c : gmap string (gmap string cacheval))
    (s : RealTimeProcessor) : RealTimeProcessor :=
  mk_processor (processing_queue s) c (max_workers s) (is_running s) (stats s).

Definition set_stats (st : Stats) (s : RealTimeProcessor) : RealTimeProcessor :=
  mk_processor (processing_queue s) (results_cache s) (max_workers s)
    (is_running s) st.

Definition set_running (b : bool) (s : RealTimeProcessor) : RealTimeProcessor :=
  mk_processor (processing_queue s) (results_cache s) (max_workers s) b (stats s).

(** [a / b] on two Python integers. *)
Definition py_truediv (a b : nat) : raising R :=
  if (b =? 0)%nat then raise (ZeroDivisionError "division by zero")
  else ret (INR a / INR b).

(** The ['result'] dictionary of a successful run (lines 150-160). *)
Definition success_result (image_id : string) (e : env) (processing_time : R)
    (image_data edge_map : ndarray) (ratio : R) (n_qubits : nat)
    (features : list R) : gmap string pyval :=
  <["status" := PStr "success"]>
  (<["feature_count" := PInt (Z.of_nat (length features))]>
  (<["qubits_used" := PInt (Z.of_nat n_qubits)]>
  (<["compression_ratio" := PFloat ratio]>
  (<["edge_detection_quality" := PFloat (np_std (flatten edge_map))]>
  (<["image_shape" := PShape (nrows image_data) (ncols image_data)]>
  (<["processing_time" := PFloat processing_time]>
  (<["timestamp" := PStr (now_result e)]>
  (<["image_id" := PStr image_id]> ∅)))))))).

(** The cache entry of a successful run (lines 162-166). *)
Definition success_entry (result : gmap string pyval) (edge_map : ndarray)
    (features : list R) : gmap string cacheval :=
  <["features" := CVector features]>
  (<["edge_map" := CMatrix (rows edge_map)]>
  (<["result" := CDict result]> ∅)).

(** The cache entry written by the handler (lines 178-184). *)
Definition error_entry (image_id : string) (e : exn) : gmap string cacheval :=
  <["result" := CDict
     (<["error" := PStr (str e)]>
     (<["status" := PStr "error"]>
     (<["image_id" := PStr image_id]> ∅)))]> ∅.

(** The statistics update of a successful run (lines 169-172). The
    divisor is the counter just incremented, so the division is defined. *)
Definition record_success (processing_time : R) (now : string) (st : Stats) : Stats :=
  let processed := S (processed_images st) in
  let total := total_processing_time st + processing_time in
  mk_stats processed total (total / INR processed) (queue_size st) (errors st)
    (Some now).

(** [self.stats['errors'] += 1] *)
Definition record_error (st : Stats) : Stats :=
  mk_stats (processed_images st) (total_processing_time st)
    (average_processing_time st) (queue_size st) (S (errors st))
    (last_processed st).

(** Lines 144-146: the three algorithms, in their order. *)
Definition run_algorithms (e : env) (image_data : ndarray)
    : raising (ndarray * (list complex * nat) * list R) :=
  edge_map <~ quantum_edge_detection image_data ;;
  let compressed := quantum_image_compression (rand1 e) (rand2 e) image_data in
  features <~ quantum_feature_extraction image_data ;;
  ret (edge_map, compressed, features).

(** Lines 150-172, once every value of the result is computed: the entry
    is stored, then the statistics are updated. *)
Definition store_success (e : env) (s : RealTimeProcessor) (image_id : string)
    (image_data edge_map : ndarray) (ratio : R) (n_qubits : nat)
    (features : list R) : RealTimeProcessor :=
  let processing_time := t_end e - t_start e in
  let result := success_result image_id e processing_time image_data edge_map
                  ratio n_qubits features in
  let s1 := set_cache (<[image_id := success_entry result edge_map features]>
                         (results_cache s)) s in
  set_stats (record_success processing_time (now_stats e) (stats s1)) s1.

(** Lines 178-185: the handler of [except Exception as e]. *)
Definition store_error (s : RealTimeProcessor) (image_id : string) (ex : exn)
    : RealTimeProcessor :=
  let s1 := set_cache (<[image_id := error_entry image_id ex]>
                         (results_cache s)) s in
  set_stats (record_error (stats s1)) s1.

(** The body of the [try] block of [_process_image]. Every statement that
    can raise comes before the first assignment to the shared state, so a
    raising run leaves the state as it found it. *)
Definition try_process (e : env) (s : RealTimeProcessor) (image_id : string)
    (image_data : ndarray) : raising RealTimeProcessor :=
  out <~ run_algorithms e image_data ;;
  let '(edge_map, (compressed_data, n_qubits), features) := out in
  ratio <~ py_truediv (length compressed_data) (size_of image_data) ;;
  ret (store_success e s image_id image_data edge_map ratio n_qubits features).

Definition _process_image (e : env) (s : RealTimeProcessor) (image_id : string)
    (image_data : ndarray) : RealTimeProcessor :=
  match try_process e s image_id image_data with
  | inr s' => s'
  | inl ex => store_error s image_id ex
  end.

(** One iteration of the loop of [_processing_worker], by any worker.
    [_process_image] returns normally on every input, so the handler
    [except Exception] of the loop is never entered. *)
Definition worker_iteration (e : env) (s : RealTimeProcessor) : RealTimeProcessor :=
  if is_running s then
    match processing_queue s with
    | [] => s
    | None :: q => set_queue q s
    | Some (image_id, image_data) :: q =>
        _process_image e (set_queue q s) image_id image_data
    end
  else s.

(** [f"img_{int(time.time() * 1000)}"] at the clock reading [now_ms]. *)
Definition generated_id (now_ms : Z) : string := "img_" +:+ pretty now_ms.

Definition submit_image (now_ms : Z) (s : RealTimeProcessor)
    (image_data : ndarray) (image_id : option string)
    : string * RealTimeProcessor :=
  let image_id := match image_id with
                  | None => generated_id now_ms
                  | Some i => i
                  end in
  let q := processing_queue s ++ [Some (image_id, image_data)] in
  let st := stats s in
  let st' := mk_stats (processed_images st) (total_processing_time st)
               (average_processing_time st) (length q) (errors st)
               (last_processed st) in
  (image_id, set_stats st' (set_queue q s)).

Definition get_result (s : RealTimeProcessor) (image_id : string)
    : option (gmap string cacheval) :=
  results_cache s !! image_id.

Definition get_stats (s : RealTimeProcessor) : Stats * RealTimeProcessor :=
  let st := stats s in
  let st' := mk_stats (processed_images st) (total_processing_time st)
               (average_processing_time st) (length (processing_queue s))
               (errors st) (last_processed st) in
  (st', set_stats st' s).

(** [RealTimeProcessor(max_workers)]: [__init__] followed by
    [start_processing]. *)
Definition new_processor (workers : nat) : RealTimeProcessor :=
  set_running true
    (mk_processor [] ∅ workers false (mk_stats 0 0 0 0 0 None)).

(** ** The operations of the pipeline

    [Work e] is one loop iteration of one of the [max_workers] worker
    threads started by [start_processing]; with no worker it does nothing. *)

Inductive op :=
  | Submit (image_data : ndarray) (image_id : option string) (now_ms : Z)
  | Work (e : env)
  | GetResult (image_id : string)
  | GetStats.

Definition step (s : RealTimeProcessor) (o : op) : RealTimeProcessor :=
  match o with
  | Submit image_data image_id now_ms =>
      snd (submit_image now_ms s image_data image_id)
  | Work e => if (0 <? max_workers s)%nat then worker_iteration e s else s
  | GetResult _ => s
  | GetStats => snd (get_stats s)
  end.

Definition run (s : RealTimeProcessor) (ops : list op) : RealTimeProcessor :=
  foldl step s ops.

(** The ratio and the qubit count that a successful run stores. *)
Definition ratio_of (a : ndarray) : R :=
  INR (compressed_size_of (length (flatten a))) / INR (size_of a).

Definition qubits_of (a : ndarray) : nat :=
  Nat.min 8 (Nat.log2 (compressed_size_of (length (flatten a)))).

(** The field [field] of the ['result'] dictionary cached under [image_id]. *)
Definition cached_field (s : RealTimeProcessor) (image_id field : string)
    : option pyval :=
  match results_cache s !! image_id with
  | Some entry =>
      match entry !! "result" with
      | Some (CDict d) => d !! field
      | _ => None
      end
  | None => None
  end.

(** The identifier of the task that operation [o] takes off the queue and
    processes in state [s], if any. *)
Definition dequeued (s : RealTimeProcessor) (o : op) : option string :=
  match o with
  | Work _ =>
      if (0 <? max_workers s)%nat && is_running s then
        match processing_queue s with
        | Some (image_id, _) :: _ => Some image_id
        | _ => None
        end
      else None
  | _ => None
  end.

(** The identifiers processed, in order, while [ops] runs from [s]. *)
Fixpoint processed_ids (s : RealTimeProcessor) (ops : list op) : list string :=
  match ops with
  | [] => []
  | o :: ops' =>
      match dequeued s o with
      | Some image_id => image_id :: processed_ids (step s o) ops'
      | None => processed_ids (step s o) ops'
      end
  end.

(** ** Predicates on statistics and on cache entries *)

(** The average is the total over the count once the count is positive,
    and zero before. *)
Definition stats_consistent (st : Stats) : Prop :=
  ((0 < processed_images st)%nat →
   average_processing_time st
   = total_processing_time st / INR (processed_images st)) ∧
  (processed_images st = 0%nat → average_processing_time st = 0).

(** The keys of the ['result'] dictionary of a successful run. *)
Definition success_fields : list string :=
  ["image_id"; "status"; "timestamp"; "processing_time"; "image_shape";
   "edge_detection_quality"; "compression_ratio"; "qubits_used";
   "feature_count"].

(** An entry that carries every field of a Result: the nine scalar fields
    in its ['result'] dictionary, the edge map and the features. *)
Definition has_result_fields (entry : gmap string cacheval) : Prop :=
  (∃ d, entry !! "result" = Some (CDict d) ∧
        ∀ f, f ∈ success_fields → is_Some (d !! f)) ∧
  is_Some (entry !! "edge_map") ∧ is_Some (entry !! "features").

(** The entry of a successful run for [image_id]: every field of a Result
    and no error message. *)
Definition success_shaped (image_id : string) (entry : gmap string cacheval)
    : Prop :=
  has_result_fields entry ∧
  dom entry = ({["result"; "edge_map"; "features"]} : gset string) ∧
  ∃ d, entry !! "result" = Some (CDict d) ∧
       d !! "image_id" = Some (PStr image_id) ∧
       d !! "status" = Some (PStr "success") ∧
       dom d = (list_to_set success_fields : gset string).

(** The entry of a failed run for [image_id]: the identifier, the status
    and the message, and nothing else. *)
Definition error_shaped (image_id : string) (entry : gmap string cacheval)
    : Prop :=
  dom entry = ({["result"]} : gset string) ∧
  ∃ d msg, entry !! "result" = Some (CDict d) ∧
       d !! "image_id" = Some (PStr image_id) ∧
       d !! "status" = Some (PStr "error") ∧
       d !! "error" = Some (PStr msg) ∧
       dom d = ({["image_id"; "status"; "error"]} : gset string).

(** A list of zeros. *)
Definition all_zero (l : list R) : Prop := Forall (λ x, x = 0) l.

(** The result stored under [image_id] is a success with edge quality 0. *)
Definition flat_success (s : RealTimeProcessor) (image_id : string) : Prop :=
  cached_field s image_id "status" = Some (PStr "success") ∧
  cached_field s image_id "edge_detection_quality" = Some (PFloat 0).

(** ** Sample inputs *)

Definition sample_env : env :=
  mk_env 10 10.5 "2024-01-01T00:00:00" "2024-01-01T00:00:01"
    (λ _, 0.25) (λ _, 0.75).

Definition one_pixel : ndarray := mk_ndarray 1 1 [[0.5]].

(** A vertical step from 0 to 1. *)
Definition step_image : ndarray := mk_ndarray 2 2 [[0; 1]; [0; 1]].

(** The identifier under which [submit_image] queues a submission made
    with the optional identifier [p.1] at the clock reading [p.2]. *)
Definition submitted_id (p : option string * Z) : string :=
  default (generated_id p.2) p.1.

(** One submission of [image_data] for each element of [subs]. *)
Definition submit_all (image_data : ndarray) (subs : list (option string * Z))
    : list op :=
  map (λ p, Submit image_data p.1 p.2) subs.


(** A state in which a submission is rejected: the task is not queued. *)
Definition rejects_submissions (s : RealTimeProcessor) : Prop :=
  ∀ now_ms image_data image_id,
    processing_queue (snd (submit_image now_ms s image_data image_id))
    = processing_queue s.

(** ** Further arrays and traces *)

(** [np.full((h, w), c)] *)
Definition full (h w : nat) (c : R) : ndarray :=
  mk_ndarray h w (replicate h (replicate w c)).


(** The image passes [np.gradient] on both axes. *)
Definition gradient_defined (a : ndarray) : bool :=
  (2 <=? nrows a)%nat && (2 <=? ncols a)%nat.

(** The identifiers waiting in the queue, oldest first. *)
Definition queued_ids (s : RealTimeProcessor) : list string :=
  omap (λ t : task, fst <$> t) (processing_queue s).

(** The identifier that operation [o] queues, if it is a submission. *)
Definition submitted (o : op) : option string :=
  match o with
  | Submit _ image_id now_ms => Some (submitted_id (image_id, now_ms))
  | _ => None
  end.

(** The identifiers queued by [ops], in order. *)
Definition submitted_ids (ops : list op) : list string := omap submitted ops.

(** The sum of the processing times measured on the clock readings [envs]. *)
Definition total_duration (envs : list env) : R :=
  np_sum (map (λ e, t_end e - t_start e) envs).

(** ** The HTTP routes

    [load_image] stands for lines 336-343 of [process_image]: reading the
    upload, [Image.open], the conversion to greyscale, the resize to
    128 by 128 and the scaling to [0, 1]. It returns the array, or the
    message of the exception that one of these calls raised. *)

(** An entry of [request.files]. *)
Record upload := mk_upload {
  filename : string;
  content : list Byte.byte
}.

(** The JSON document of a response. *)
Inductive json_body :=
  | JFields (d : gmap string pyval)
  | JEntry (entry : gmap string cacheval).

Record response := mk_response {
  status_code : nat;
  body : json_body
}.

Definition error_response (code : nat) (msg : string) : response :=
  mk_response code (JFields (<["error" := PStr msg]> ∅)).

Section routes.

Variable load_image : list Byte.byte → string + ndarray.

(** [POST /api/process] at the clock reading [now_ms]. *)
Definition process_image (files : gmap string upload) (now_ms : Z)
    (s : RealTimeProcessor) : response * RealTimeProcessor :=
  match files !! "image" with
  | None => (error_response 400 "No image provided", s)
  | Some file =>
      if decide (filename file = "") then
        (error_response 400 "No file selected", s)
      else
        match load_image (content file) with
        | inl msg => (error_response 500 msg, s)
        | inr image_array =>
            let '(image_id, s') := submit_image now_ms s image_array None in
            (mk_response 200
               (JFields (<["image_id" := PStr image_id]>
                        (<["status" := PStr "submitted"]> ∅))),
             s')
        end
  end.

End routes.

(** [GET /api/result/<image_id>] *)
Definition get_result_route (s : RealTimeProcessor) (image_id : string)
    : response :=
  match get_result s image_id with
  | None => mk_response 200 (JFields (<["status" := PStr "processing"]> ∅))
  | Some result => mk_response 200 (JEntry result)
  end.


(** A loader that decodes every upload to the black 128-by-128 image. *)
Definition black_loader (_ : list Byte.byte) : string + ndarray :=
  inr (zeros 128 128).

(** ** Edge detection on pixels that may be NaN

    A second embedding of [quantum_edge_detection], on arrays whose
    elements are a number or NaN. [None] is NaN: every arithmetic
    operation with a NaN operand is NaN, and [np.clip] returns a NaN
    element as it is. Infinite elements and rounding are left out, as in
    the embedding on [R]. *)


















(** * Properties *)

(** ** Arrays *)

Section arrays.

Lemma tabulate_wf h w f : wf_ndarray (tabulate h w f).
Proof.
  split; simpl.
  - by rewrite length_map, length_seq.
  - apply Forall_forall. intros r Hr.
    apply list_elem_of_In, in_map_iff in Hr as (i & <- & _).
    by rewrite length_map, length_seq.
Qed.

Lemma map_ndarray_wf f a : wf_ndarray a → wf_ndarray (map_ndarray f a).
Proof.
  intros [Hlen Hrows]. split; simpl.
  - by rewrite length_map.
  - apply Forall_forall. intros r Hr.
    apply list_elem_of_In, in_map_iff in Hr as (r0 & <- & Hin).
    rewrite length_map.
    rewrite Forall_forall in Hrows. apply Hrows. by apply list_elem_of_In.
Qed.

Lemma zip_with_rows_wf (f : R → R → R) (w : nat) (xs ys : list (list R)) :
  Forall (λ r, length r = w) xs → Forall (λ r, length r = w) ys →
  Forall (λ r, length r = w) (zip_with (zip_with f) xs ys).
Proof.
  intros Hx. revert ys. induction Hx as [|x xs Hx _ IH]; intros ys Hy.
  - constructor.
  - destruct Hy as [|y ys Hy Hys]; simpl; constructor.
    + rewrite length_zip_with. lia.
    + by apply IH.
Qed.

Lemma map2_ndarray_wf f a b :
  wf_ndarray a → wf_ndarray b → shape a = shape b →
  wf_ndarray (map2_ndarray f a b).
Proof.
  intros [Ha Hra] [Hb Hrb] Hs. injection Hs as Hn Hc.
  split; simpl.
  - rewrite length_zip_with. lia.
  - apply zip_with_rows_wf; [done|]. by rewrite Hc.
Qed.

Lemma flatten_length a : wf_ndarray a → length (flatten a) = size_of a.
Proof.
  destruct a as [h w rs]. unfold wf_ndarray, flatten, size_of. simpl.
  intros [<- Hrows]. induction Hrows as [|r rs Hr _ IH]; simpl; [done|].
  rewrite length_app, IH, Hr. done.
Qed.

Lemma zeros_wf h w : wf_ndarray (zeros h w).
Proof.
  split; simpl.
  - apply length_replicate.
  - apply Forall_replicate, length_replicate.
Qed.

End arrays.

(** ** Edge detection *)

Section edge_detection.

Lemma np_clip_range x : 0 <= np_clip 0 1 x <= 1.
Proof.
  unfold np_clip, Rmin, Rmax.
  repeat destruct (Rle_dec _ _); lra.
Qed.

Lemma np_gradient_shape a ax g :
  np_gradient a ax = inr g → shape g = shape a ∧ wf_ndarray g.
Proof.
  destruct ax; simpl.
  - destruct (nrows a <? 2)%nat; [done|].
    intros [= <-]. split; [done | apply tabulate_wf].
  - destruct (ncols a <? 2)%nat; [done|].
    intros [= <-]. split; [done | apply tabulate_wf].
Qed.

(** Edge detection raises exactly on an image with a dimension below 2,
    and then with the [ValueError] of [np.gradient]. *)
Lemma quantum_edge_detection_raises a ex :
  quantum_edge_detection a = inl ex →
  ex = ValueError gradient_too_small ∧ (nrows a < 2 ∨ ncols a < 2)%nat.
Proof.
  unfold quantum_edge_detection. simpl.
  destruct (ncols a <? 2)%nat eqn:Hc; simpl.
  - intros [= <-]. apply Nat.ltb_lt in Hc. auto.
  - destruct (nrows a <? 2)%nat eqn:Hr; simpl; [|done].
    intros [= <-]. apply Nat.ltb_lt in Hr. auto.
Qed.

Lemma quantum_edge_detection_small a :
  (nrows a < 2 ∨ ncols a < 2)%nat →
  quantum_edge_detection a = inl (ValueError gradient_too_small).
Proof.
  intros H. unfold quantum_edge_detection. simpl.
  destruct (ncols a <? 2)%nat eqn:Hc; simpl; [done|].
  destruct (nrows a <? 2)%nat eqn:Hr; simpl; [done|].
  apply Nat.ltb_ge in Hc, Hr. lia.
Qed.

Lemma quantum_edge_detection_returns a :
  (2 ≤ nrows a)%nat → (2 ≤ ncols a)%nat →
  ∃ edge_map, quantum_edge_detection a = inr edge_map.
Proof.
  intros Hr Hc.
  destruct (quantum_edge_detection a) as [ex|m] eqn:E; [|eauto].
  apply quantum_edge_detection_raises in E as [_ ?]. lia.
Qed.

Lemma Forall_map_map {A B} (P : B → Prop) (f : A → B) (rs : list (list A)) :
  (∀ x, P (f x)) → Forall (Forall P) (map (map f) rs).
Proof.
  intros Hf. apply Forall_forall. intros r Hr.
  apply list_elem_of_In, in_map_iff in Hr as (r0 & <- & _).
  apply Forall_forall. intros y Hy.
  apply list_elem_of_In, in_map_iff in Hy as (x & <- & _). apply Hf.
Qed.

(** On pixels that are real numbers: whenever edge detection returns,
    the edge map has the shape of the input, its rows have that shape
    too, and every element lies in [0, 1]; it returns on every image
    whose two dimensions are at least 2 and raises only when one of them
    is below 2. *)
Theorem edge_map_shape_and_range (image_data : ndarray) :
  match quantum_edge_detection image_data with
  | inr edge_map =>
      shape edge_map = shape image_data ∧ wf_ndarray edge_map ∧
      Forall (Forall (λ x, 0 <= x <= 1)) (rows edge_map)
  | inl _ => (nrows image_data < 2 ∨ ncols image_data < 2)%nat
  end.
Proof.
  destruct (quantum_edge_detection image_data) as [ex|edge_map] eqn:E.
  - by apply quantum_edge_detection_raises in E as [_ ?].
  - unfold quantum_edge_detection in E.
    destruct (np_gradient image_data Axis1) as [|gx] eqn:Ex; [done|].
    destruct (np_gradient image_data Axis0) as [|gy] eqn:Ey; [done|].
    apply np_gradient_shape in Ex as [Sx Wx], Ey as [Sy Wy].
    simpl in E. injection E as <-.
    split; [|split].
    + unfold shape in *. simpl. done.
    + do 2 apply map_ndarray_wf. apply map2_ndarray_wf; congruence.
    + simpl. apply Forall_map_map, np_clip_range.
Qed.

(** On the step image the gradient magnitude is 1 everywhere, the
    enhanced magnitude is 1.2, and the edge map holds 1. *)
Example step_image_clipped :
  quantum_edge_detection step_image = inr (mk_ndarray 2 2 [[1; 1]; [1; 1]]).
Proof.
  assert (np_clip 0 1 (sqrt (1 ^ 2 + 0 ^ 2) * enhancement_factor) = 1) as Hv.
  { replace (1 ^ 2 + 0 ^ 2) with 1 by ring. rewrite sqrt_1.
    unfold np_clip, enhancement_factor, Rmin, Rmax.
    repeat destruct (Rle_dec _ _); lra. }
  unfold quantum_edge_detection, np_gradient, step_image.
  cbv -[pow sqrt np_clip enhancement_factor Rdiv Rminus Rmult Rplus IZR].
  replace ((1 - 0) / 1) with 1 by lra. replace ((0 - 0) / 1) with 0 by lra.
  replace ((1 - 1) / 1) with 0 by lra.
  by rewrite Hv.
Qed.

End edge_detection.


(** ** Compression *)

Section compression.

Lemma compressed_size_lower n : (16 ≤ compressed_size_of n)%nat.
Proof. unfold compressed_size_of. lia. Qed.

Lemma compressed_data_length r1 r2 a :
  length (fst (quantum_image_compression r1 r2 a))
  = compressed_size_of (length (flatten a)).
Proof. simpl. by rewrite length_map, length_seq. Qed.

Lemma qubits_range cs :
  (16 ≤ cs)%nat → (4 ≤ Nat.min 8 (Nat.log2 cs) ≤ 8)%nat.
Proof.
  intros H. apply Nat.log2_le_mono in H.
  change (Nat.log2 16) with 4%nat in H. lia.
Qed.

End compression.

(** ** Feature extraction *)

Section features.

Lemma strided_length {A} (l : list A) k :
  length (strided 4 k l) = slice_len k (length l).
Proof.
  unfold slice_len. revert k. induction l as [|x t IH]; intros k.
  - simpl. replace (0 - k + 3)%nat with 3%nat by lia. done.
  - destruct k as [|k]; simpl strided; simpl length; rewrite IH; [|done].
    replace (S (length t) - 0 + 3)%nat with (length t + 1 * 4)%nat by lia.
    rewrite Nat.div_add by done.
    destruct (decide (length t < 3)%nat).
    + replace (length t - 3 + 3)%nat with 3%nat by lia.
      rewrite (Nat.div_small (length t)) by lia. done.
    + replace (length t - 3 + 3)%nat with (length t) by lia. lia.
Qed.

Lemma strided_Forall {A} (P : A → Prop) (l : list A) step k :
  Forall P l → Forall P (strided step k l).
Proof.
  intros H. revert k. induction H as [|x t Hx _ IH]; intros k; simpl.
  - constructor.
  - destruct k; [constructor|]; auto.
Qed.

(** The patch is a well-formed array: its rows have the shape that the
    slice lengths announce. *)
Lemma patch_of_wf a i : wf_ndarray a → wf_ndarray (patch_of a i).
Proof.
  intros [Hlen Hrows]. split; simpl.
  - by rewrite length_map, strided_length, Hlen.
  - apply Forall_forall. intros r Hr.
    apply list_elem_of_In, in_map_iff in Hr as (r0 & <- & Hin).
    rewrite strided_length.
    apply (strided_Forall _ _ 4 i) in Hrows.
    rewrite Forall_forall in Hrows.
    by rewrite (Hrows r0) by by apply list_elem_of_In.
Qed.

Lemma slice_len_pos i n : (0 <? slice_len i n)%nat = bool_decide (i < n)%nat.
Proof.
  unfold slice_len. case_bool_decide as H.
  - apply Nat.ltb_lt. apply Nat.div_str_pos. lia.
  - replace (n - i)%nat with 0%nat by lia. done.
Qed.

Lemma patch_nonempty a i :
  (0 <? size_of (patch_of a i))%nat
  = bool_decide (i < nrows a ∧ i < ncols a)%nat.
Proof.
  unfold size_of, patch_of. simpl.
  pose proof (slice_len_pos i (nrows a)) as Hr.
  pose proof (slice_len_pos i (ncols a)) as Hc.
  destruct (slice_len i (nrows a)) as [|p], (slice_len i (ncols a)) as [|q];
    simpl in *; repeat case_bool_decide; try done; try lia.
  rewrite Nat.mul_0_r. done.
Qed.

Lemma texture_loop_length a features :
  length (texture_loop a features)
  = (length features
     + length (filter (λ i, i < nrows a ∧ i < ncols a)%nat (seq 0 4)))%nat.
Proof.
  unfold texture_loop. generalize (seq 0 4). intros l. revert features.
  induction l as [|i l IH]; intros features; simpl.
  - lia.
  - rewrite IH, patch_nonempty, filter_cons.
    case_bool_decide; case_decide; try done; simpl;
      rewrite ?length_app; simpl; lia.
Qed.

Lemma flatten_nonempty a :
  wf_ndarray a → (0 < nrows a)%nat → (0 < ncols a)%nat →
  ∃ x t, flatten a = x :: t.
Proof.
  destruct a as [h w rs]. unfold wf_ndarray, flatten. simpl.
  intros [Hlen Hrows] Hh Hw.
  destruct rs as [|r rs]; simpl in *; [lia|].
  apply Forall_cons in Hrows as [Hr _].
  destruct r as [|x r]; simpl in *; [lia|]. eauto.
Qed.

Lemma quantum_feature_extraction_returns a :
  wf_ndarray a → (0 < nrows a)%nat → (0 < ncols a)%nat →
  ∃ features, quantum_feature_extraction a = inr features ∧
    length features
    = (4 + length (filter (λ i, i < nrows a ∧ i < ncols a)%nat (seq 0 4)))%nat.
Proof.
  intros Hwf Hh Hw.
  destruct (flatten_nonempty a Hwf Hh Hw) as (x & t & E).
  unfold quantum_feature_extraction. rewrite E. simpl.
  eexists. split; [reflexivity|]. by rewrite texture_loop_length.
Qed.

Lemma quantum_feature_extraction_length a features :
  quantum_feature_extraction a = inr features →
  length features
  = (4 + length (filter (λ i, i < nrows a ∧ i < ncols a)%nat (seq 0 4)))%nat.
Proof.
  unfold quantum_feature_extraction.
  destruct (flatten a) as [|x t]; simpl; [done|].
  intros [= <-]. by rewrite texture_loop_length.
Qed.

Lemma texture_count_full h w :
  (4 ≤ h)%nat → (4 ≤ w)%nat →
  length (filter (λ i, i < h ∧ i < w)%nat (seq 0 4)) = 4%nat.
Proof.
  intros Hh Hw. simpl.
  rewrite !filter_cons, filter_nil.
  repeat case_decide; try done; lia.
Qed.

Example one_pixel_features :
  ∃ features,
    quantum_feature_extraction one_pixel = inr features ∧
    length features = 5%nat.
Proof.
  destruct (quantum_feature_extraction_returns one_pixel)
    as (features & E & Hlen).
  - split; [done|]. by repeat constructor.
  - simpl. lia.
  - simpl. lia.
  - by exists features.
Qed.

End features.


(** ** One call of [_process_image] *)

Section processing.

Lemma run_algorithms_message e a ex :
  run_algorithms e a = inl ex → str ex ≠ "".
Proof.
  unfold run_algorithms.
  destruct (quantum_edge_detection a) as [ex0|edge_map] eqn:E; simpl.
  - intros [= <-]. by apply quantum_edge_detection_raises in E as [-> _].
  - unfold quantum_feature_extraction.
    destruct (flatten a) as [|x t]; simpl; [|done].
    by intros [= <-].
Qed.

Lemma try_process_message e s image_id a ex :
  try_process e s image_id a = inl ex → str ex ≠ "".
Proof.
  unfold try_process.
  destruct (run_algorithms e a) as [ex0|[[edge_map [cd nq]] features]] eqn:E;
    simpl.
  - intros [= <-]. by eapply run_algorithms_message.
  - unfold py_truediv. destruct (size_of a =? 0)%nat; simpl; [|done].
    by intros [= <-].
Qed.

Lemma try_process_inr e s image_id a s' :
  try_process e s image_id a = inr s' →
  ∃ edge_map features,
    quantum_edge_detection a = inr edge_map ∧
    quantum_feature_extraction a = inr features ∧
    size_of a ≠ 0%nat ∧
    s' = store_success e s image_id a edge_map (ratio_of a) (qubits_of a)
           features.
Proof.
  unfold try_process, run_algorithms.
  destruct (quantum_edge_detection a) as [|edge_map]; simpl; [done|].
  destruct (quantum_feature_extraction a) as [|features]; simpl; [done|].
  unfold py_truediv.
  destruct (size_of a =? 0)%nat eqn:Hz; simpl; [done|].
  intros [= <-]. apply Nat.eqb_neq in Hz.
  exists edge_map, features. repeat split; try done.
  unfold ratio_of, qubits_of. by rewrite length_map, length_seq.
Qed.

Lemma try_process_returns e s image_id a :
  wf_ndarray a → (2 ≤ nrows a)%nat → (2 ≤ ncols a)%nat →
  ∃ s', try_process e s image_id a = inr s'.
Proof.
  intros Hwf Hr Hc.
  destruct (quantum_edge_detection_returns a Hr Hc) as [edge_map E1].
  destruct (quantum_feature_extraction_returns a Hwf) as (features & E2 & _);
    [lia..|].
  unfold try_process, run_algorithms. rewrite E1, E2. simpl.
  unfold py_truediv.
  destruct (size_of a =? 0)%nat eqn:Hz; simpl; [|eauto].
  apply Nat.eqb_eq in Hz. unfold size_of in Hz. nia.
Qed.

(** The two outcomes of a call. *)
Lemma process_image_cases e s image_id a :
  (∃ edge_map features,
     quantum_edge_detection a = inr edge_map ∧
     quantum_feature_extraction a = inr features ∧
     size_of a ≠ 0%nat ∧
     _process_image e s image_id a
     = store_success e s image_id a edge_map (ratio_of a) (qubits_of a)
         features)
  ∨ (∃ ex, try_process e s image_id a = inl ex ∧ str ex ≠ "" ∧
       _process_image e s image_id a = store_error s image_id ex).
Proof.
  unfold _process_image.
  destruct (try_process e s image_id a) as [ex|s'] eqn:E.
  - right. exists ex. split; [done|]. split; [|done].
    by eapply try_process_message.
  - left. apply try_process_inr in E as (edge_map & features & ? & ? & ? & ->).
    by exists edge_map, features.
Qed.

Lemma cached_field_store_success e s image_id a edge_map ratio nq features f :
  cached_field (store_success e s image_id a edge_map ratio nq features)
    image_id f
  = success_result image_id e (t_end e - t_start e) a edge_map ratio nq
      features !! f.
Proof.
  unfold cached_field, store_success. simpl.
  rewrite lookup_insert_eq. unfold success_entry.
  rewrite lookup_insert_ne by done.
  rewrite lookup_insert_ne by done.
  by rewrite lookup_insert_eq.
Qed.

Lemma cached_field_store_error s image_id ex f :
  cached_field (store_error s image_id ex) image_id f
  = (<["error" := PStr (str ex)]>
     (<["status" := PStr "error"]>
     (<["image_id" := PStr image_id]> (∅ : gmap string pyval)))) !! f.
Proof.
  unfold cached_field, store_error. simpl.
  rewrite lookup_insert_eq. unfold error_entry.
  by rewrite lookup_insert_eq.
Qed.

End processing.


(** ** The fields of a stored result *)

Ltac lookup_field :=
  repeat first
    [ rewrite lookup_insert_eq
    | rewrite lookup_insert_ne by done
    | rewrite lookup_empty ].

Section result_fields.

Context (e : env) (s : RealTimeProcessor) (image_id : string).

Lemma status_store_success a edge_map ratio nq features :
  cached_field (store_success e s image_id a edge_map ratio nq features)
    image_id "status" = Some (PStr "success").
Proof. rewrite cached_field_store_success. unfold success_result. by lookup_field. Qed.

Lemma status_store_error ex :
  cached_field (store_error s image_id ex) image_id "status"
  = Some (PStr "error").
Proof. rewrite cached_field_store_error. by lookup_field. Qed.

(** A call whose stored status is ['success'] went through the [try]
    block to its end. *)
Lemma status_success_inv a :
  cached_field (_process_image e s image_id a) image_id "status"
  = Some (PStr "success") →
  ∃ edge_map features,
    quantum_edge_detection a = inr edge_map ∧
    quantum_feature_extraction a = inr features ∧
    size_of a ≠ 0%nat ∧
    _process_image e s image_id a
    = store_success e s image_id a edge_map (ratio_of a) (qubits_of a) features.
Proof.
  destruct (process_image_cases e s image_id a)
    as [H|(ex & _ & _ & ->)]; [done|].
  by rewrite status_store_error.
Qed.

End result_fields.

(** C6: the qubit count returned by the compression is
    [min(8, floor(log2(compressed size)))], the compressed size is at
    least 16, so the count lies between 4 and 8; a successful run stores
    exactly that count under ['qubits_used'], and a failed run stores no
    count. *)
Theorem qubits_used_bounded (e : env) (s : RealTimeProcessor)
    (image_id : string) (image_data : ndarray) :
  let out := quantum_image_compression (rand1 e) (rand2 e) image_data in
  let s' := _process_image e s image_id image_data in
  snd out = Nat.min 8 (Nat.log2 (length (fst out))) ∧
  (16 ≤ length (fst out))%nat ∧
  (4 ≤ snd out ≤ 8)%nat ∧
  ((cached_field s' image_id "status" = Some (PStr "success") ∧
    cached_field s' image_id "qubits_used" = Some (PInt (Z.of_nat (snd out))))
   ∨ (cached_field s' image_id "status" = Some (PStr "error") ∧
      cached_field s' image_id "qubits_used" = None)).
Proof.
  intros out s'.
  assert (length (fst out) = compressed_size_of (length (flatten image_data)))
    as Hlen by apply compressed_data_length.
  pose proof (compressed_size_lower (length (flatten image_data))) as Hlow.
  split; [by rewrite Hlen|]. split; [lia|].
  split; [apply qubits_range, Hlow|].
  subst s'.
  destruct (process_image_cases e s image_id image_data)
    as [(edge_map & features & _ & _ & _ & ->)|(ex & _ & _ & ->)].
  - left. split; [apply status_store_success|].
    rewrite cached_field_store_success. unfold success_result. by lookup_field.
  - right. split; [apply status_store_error|].
    rewrite cached_field_store_error. by lookup_field.
Qed.

(** C7: for a well-formed image of [n] elements whose processing succeeds,
    the compressed representation has [max(n / 4, 16)] elements and the
    stored ['compression_ratio'] is that length divided by [n]; for
    [n = 16] the ratio is 1. *)
Theorem compression_ratio_formula (e : env) (s : RealTimeProcessor)
    (image_id : string) (image_data : ndarray) :
  wf_ndarray image_data →
  cached_field (_process_image e s image_id image_data) image_id "status"
  = Some (PStr "success") →
  let n := size_of image_data in
  let compressed_data :=
    fst (quantum_image_compression (rand1 e) (rand2 e) image_data) in
  length compressed_data = Nat.max (n / 4) 16 ∧
  cached_field (_process_image e s image_id image_data) image_id
    "compression_ratio"
  = Some (PFloat (INR (length compressed_data) / INR n)) ∧
  (n = 16%nat →
   cached_field (_process_image e s image_id image_data) image_id
     "compression_ratio" = Some (PFloat 1)).
Proof.
  intros Hwf Hok n compressed_data.
  apply status_success_inv in Hok as (edge_map & features & _ & _ & Hn & ->).
  assert (length compressed_data = Nat.max (n / 4) 16) as Hlen.
  { subst compressed_data. rewrite compressed_data_length.
    by rewrite (flatten_length _ Hwf). }
  assert (ratio_of image_data = INR (length compressed_data) / INR n) as Hr.
  { unfold ratio_of. by rewrite Hlen, (flatten_length _ Hwf). }
  split; [done|].
  rewrite cached_field_store_success. unfold success_result. lookup_field.
  split; [by rewrite Hr|].
  intros Hn16. rewrite Hr, Hlen, Hn16. do 2 f_equal.
  change (Nat.max (16 / 4) 16) with 16%nat.
  apply Rdiv_diag. apply not_0_INR. done.
Qed.

Lemma compression_ratio_formula_witness :
  cached_field (_process_image sample_env (new_processor 4) "img_1" (zeros 4 4))
    "img_1" "compression_ratio" = Some (PFloat 1).
Proof.
  refine (proj2 (proj2 (compression_ratio_formula sample_env (new_processor 4)
                          "img_1" (zeros 4 4) _ _)) _).
  - apply zeros_wf.
  - reflexivity.
  - reflexivity.
Defined.

(** C10, as the code has it: on a non-empty well-formed image, feature
    extraction returns a vector of 4 statistical features plus one texture
    feature for every [i] in 0..3 that both dimensions exceed: between 5
    and 8 features, 8 when both dimensions are at least 4, 5 for a 1-by-1
    image. The length reaches a Result only when both dimensions are at
    least 2: the run then succeeds and stores that length, which is at
    least 6, under ['feature_count']; otherwise the run fails and its
    Result has no ['feature_count']. *)
Theorem feature_count_formula (image_data : ndarray) :
  wf_ndarray image_data →
  (0 < nrows image_data)%nat → (0 < ncols image_data)%nat →
  ∃ features,
    quantum_feature_extraction image_data = inr features ∧
    length features
    = (4 + length (filter (λ i, i < nrows image_data ∧ i < ncols image_data)%nat
                     (seq 0 4)))%nat ∧
    (5 ≤ length features ≤ 8)%nat ∧
    ((4 ≤ nrows image_data)%nat → (4 ≤ ncols image_data)%nat →
     length features = 8%nat) ∧
    (nrows image_data = 1%nat → ncols image_data = 1%nat →
     length features = 5%nat) ∧
    ∀ e s image_id,
      let s' := _process_image e s image_id image_data in
      ((2 ≤ nrows image_data ∧ 2 ≤ ncols image_data)%nat →
       cached_field s' image_id "status" = Some (PStr "success") ∧
       cached_field s' image_id "feature_count"
       = Some (PInt (Z.of_nat (length features))) ∧
       (6 ≤ length features)%nat) ∧
      ((nrows image_data < 2 ∨ ncols image_data < 2)%nat →
       cached_field s' image_id "status" = Some (PStr "error") ∧
       cached_field s' image_id "feature_count" = None).
Proof.
  intros Hwf Hh Hw.
  destruct (quantum_feature_extraction_returns _ Hwf Hh Hw)
    as (features & E & Hlen).
  exists features. split; [done|]. split; [done|].
  split; [|split; [|split]].
  - rewrite Hlen. simpl. rewrite !filter_cons.
    repeat case_decide; simpl; lia.
  - intros. by rewrite Hlen, texture_count_full.
  - intros Hr Hc. rewrite Hlen, Hr, Hc. done.
  - intros e s image_id s'. subst s'. split.
    + intros [Hr Hc].
      destruct (try_process_returns e s image_id image_data Hwf Hr Hc)
        as [s' Hs'].
      apply try_process_inr in Hs' as Hinv.
      destruct Hinv as (edge_map & features' & _ & E' & _ & ->).
      unfold _process_image. rewrite Hs'.
      split; [apply status_store_success|]. split.
      * rewrite cached_field_store_success. unfold success_result.
        lookup_field. congruence.
      * rewrite Hlen. simpl. rewrite !filter_cons.
        repeat case_decide; simpl; lia.
    + intros Hsmall.
      assert (quantum_edge_detection image_data
              = inl (ValueError gradient_too_small)) as Hraise
        by (apply quantum_edge_detection_small; lia).
      unfold _process_image, try_process, run_algorithms.
      rewrite Hraise. simpl.
      split; [apply status_store_error|].
      rewrite cached_field_store_error. by lookup_field.
Qed.

Lemma feature_count_formula_witness :
  cached_field (_process_image sample_env (new_processor 4) "img_1" (zeros 4 4))
    "img_1" "feature_count" = Some (PInt 8).
Proof.
  destruct (feature_count_formula (zeros 4 4))
    as (features & E & _ & _ & H8 & _ & Hresult).
  - apply zeros_wf.
  - simpl. lia.
  - simpl. lia.
  - destruct (Hresult sample_env (new_processor 4) "img_1") as [Hgood _].
    destruct Hgood as (_ & Hcount & _); [simpl; lia|].
    rewrite Hcount, H8 by (simpl; lia). reflexivity.
Defined.

(** C10, as stated, fails: feature extraction returns 5 features on a
    1-by-1 image, but that length never reaches a Result: edge detection
    raises first, and the Result stored for the image has status
    ['error'] and no ['feature_count']. *)
Lemma one_pixel_result_has_no_feature_count :
  let s := _process_image sample_env (new_processor 4) "img_1" one_pixel in
  (∃ features,
     quantum_feature_extraction one_pixel = inr features ∧
     length features = 5%nat) ∧
  cached_field s "img_1" "status" = Some (PStr "error") ∧
  cached_field s "img_1" "feature_count" = None.
Proof.
  split; [|split; reflexivity].
  eexists. split; [reflexivity|]. reflexivity.
Qed.

(** ** What a step changes *)

Section frame.

Lemma process_image_frame e s image_id a :
  ∃ entry,
    results_cache (_process_image e s image_id a)
    = <[image_id := entry]> (results_cache s) ∧
    (success_shaped image_id entry ∨ error_shaped image_id entry) ∧
    processing_queue (_process_image e s image_id a) = processing_queue s ∧
    is_running (_process_image e s image_id a) = is_running s ∧
    max_workers (_process_image e s image_id a) = max_workers s.
Proof.
  destruct (process_image_cases e s image_id a)
    as [(edge_map & features & _ & _ & _ & ->)|(ex & _ & _ & ->)].
  - eexists. split; [reflexivity|]. split; [|done].
    left. unfold success_shaped, has_result_fields, success_entry.
    split; [split; [|split]|split].
    + eexists. split; [by lookup_field|].
      intros f Hf. unfold success_fields in Hf. unfold success_result.
      repeat (apply elem_of_cons in Hf as [->|Hf]; [by lookup_field|]).
      by apply elem_of_nil in Hf.
    + by lookup_field.
    + by lookup_field.
    + rewrite !dom_insert_L, dom_empty_L. set_solver.
    + eexists. split; [by lookup_field|]. unfold success_result.
      split; [by lookup_field|]. split; [by lookup_field|].
      rewrite !dom_insert_L, dom_empty_L. unfold success_fields. simpl.
      set_solver.
  - eexists. split; [reflexivity|]. split; [|done].
    right. unfold error_shaped, error_entry. split.
    + rewrite !dom_insert_L, dom_empty_L. set_solver.
    + eexists _, (str ex). split; [by lookup_field|].
      split; [by lookup_field|]. split; [by lookup_field|].
      split; [by lookup_field|].
      rewrite !dom_insert_L, dom_empty_L. set_solver.
Qed.

Lemma step_is_running s o : is_running (step s o) = is_running s.
Proof.
  destruct o as [a i ms|e|i|]; simpl; try done.
  destruct (0 <? max_workers s)%nat; [|done].
  unfold worker_iteration. destruct (is_running s) eqn:Hr; [|done].
  destruct (processing_queue s) as [|[[image_id a]|] q]; try done.
  destruct (process_image_frame e (set_queue q s) image_id a)
    as (_ & _ & _ & _ & -> & _). done.
Qed.

Lemma step_max_workers s o : max_workers (step s o) = max_workers s.
Proof.
  destruct o as [a i ms|e|i|]; simpl; try done.
  destruct (0 <? max_workers s)%nat; [|done].
  unfold worker_iteration. destruct (is_running s); [|done].
  destruct (processing_queue s) as [|[[image_id a]|] q]; try done.
  destruct (process_image_frame e (set_queue q s) image_id a)
    as (_ & _ & _ & _ & _ & ->). done.
Qed.

(** A step changes the cache only at the identifier it processes. *)
Lemma step_cache s o :
  match dequeued s o with
  | Some image_id =>
      ∃ entry, results_cache (step s o) = <[image_id := entry]> (results_cache s)
               ∧ (success_shaped image_id entry ∨ error_shaped image_id entry)
  | None => results_cache (step s o) = results_cache s
  end.
Proof.
  destruct o as [a i ms|e|i|]; simpl; try done.
  destruct (0 <? max_workers s)%nat; simpl; [|done].
  unfold worker_iteration. destruct (is_running s); [|done].
  destruct (processing_queue s) as [|[[image_id a]|] q]; try done.
  destruct (process_image_frame e (set_queue q s) image_id a)
    as (entry & -> & Hshape & _). eauto.
Qed.

Lemma step_cache_other s o image_id :
  dequeued s o ≠ Some image_id →
  results_cache (step s o) !! image_id = results_cache s !! image_id.
Proof.
  intros Hne. pose proof (step_cache s o) as H.
  destruct (dequeued s o) as [i|].
  - destruct H as (entry & -> & _). rewrite lookup_insert_ne; [done|congruence].
  - by rewrite H.
Qed.

Lemma step_cache_kept s o image_id :
  is_Some (results_cache s !! image_id) →
  is_Some (results_cache (step s o) !! image_id).
Proof.
  intros Hs. pose proof (step_cache s o) as H.
  destruct (dequeued s o) as [i|].
  - destruct H as (entry & -> & _).
    destruct (decide (i = image_id)) as [->|Hne].
    + rewrite lookup_insert_eq. eauto.
    + by rewrite lookup_insert_ne.
  - by rewrite H.
Qed.

Lemma run_cons s o ops : run s (o :: ops) = run (step s o) ops.
Proof. done. Qed.

Lemma run_app s ops1 ops2 : run s (ops1 ++ ops2) = run (run s ops1) ops2.
Proof. apply foldl_app. Qed.

Lemma run_snoc s ops o : run s (ops ++ [o]) = step (run s ops) o.
Proof. by rewrite run_app. Qed.

Lemma run_is_running s ops : is_running (run s ops) = is_running s.
Proof.
  revert s. induction ops as [|o ops IH]; intros s; [done|].
  by rewrite run_cons, IH, step_is_running.
Qed.

Lemma run_max_workers s ops : max_workers (run s ops) = max_workers s.
Proof.
  revert s. induction ops as [|o ops IH]; intros s; [done|].
  by rewrite run_cons, IH, step_max_workers.
Qed.

Lemma run_cache_kept s ops image_id :
  is_Some (results_cache s !! image_id) →
  is_Some (results_cache (run s ops) !! image_id).
Proof.
  revert s. induction ops as [|o ops IH]; intros s Hs; [done|].
  rewrite run_cons. by apply IH, step_cache_kept.
Qed.

Lemma run_cache_other s ops image_id :
  image_id ∉ processed_ids s ops →
  results_cache (run s ops) !! image_id = results_cache s !! image_id.
Proof.
  revert s. induction ops as [|o ops IH]; intros s Hn; [done|].
  rewrite run_cons. simpl in Hn.
  destruct (dequeued s o) as [i|] eqn:Hd.
  - apply not_elem_of_cons in Hn as [Hne Hn].
    rewrite IH by done. apply step_cache_other. congruence.
  - rewrite IH by done. apply step_cache_other. congruence.
Qed.

End frame.

(** ** The fields of every stored result *)

Section stored_results.

Lemma error_shaped_lacks_fields image_id entry :
  error_shaped image_id entry → ¬ has_result_fields entry.
Proof.
  intros [Hdom _] (_ & Hedge & _).
  apply elem_of_dom in Hedge. rewrite Hdom in Hedge. set_solver.
Qed.

End stored_results.

(** C2, as the code has it: every stored result is of one of two forms.
    A result with status ['success'] holds the identifier, status,
    timestamp, processing time, image shape, edge quality, compression
    ratio, qubit count, feature count, edge map and features, and no error
    message. A result with status ['error'] holds the identifier, the
    status and the error message, and nothing else. *)
Theorem result_fields_by_status (workers : nat) (ops : list op) :
  map_Forall (λ image_id entry,
                success_shaped image_id entry ∨ error_shaped image_id entry)
    (results_cache (run (new_processor workers) ops)).
Proof.
  induction ops as [|o ops IH] using rev_ind.
  - simpl. apply map_Forall_empty.
  - rewrite run_snoc.
    pose proof (step_cache (run (new_processor workers) ops) o) as Hstep.
    destruct (dequeued (run (new_processor workers) ops) o) as [image_id|].
    + destruct Hstep as (entry & -> & Hshape).
      by apply map_Forall_insert_2.
    + by rewrite Hstep.
Qed.

(** C2, as stated, fails: the result stored for a 1-by-1 image has status
    ['error'] and no timestamp, edge map or features. *)
Lemma error_result_lacks_fields :
  let s := run (new_processor 4)
             [Submit one_pixel (Some "img_1") 0; Work sample_env] in
  ∃ entry,
    results_cache s !! "img_1" = Some entry ∧
    cached_field s "img_1" "status" = Some (PStr "error") ∧
    cached_field s "img_1" "timestamp" = None ∧
    entry !! "edge_map" = None ∧
    entry !! "features" = None ∧
    ¬ has_result_fields entry.
Proof.
  exists (error_entry "img_1" (ValueError gradient_too_small)).
  split; [reflexivity|]. split; [reflexivity|]. split; [reflexivity|].
  split; [reflexivity|]. split; [reflexivity|].
  intros (_ & Hedge & _). by destruct Hedge.
Qed.

(** ** Stored results are kept *)

(** C3, as the code has it: a stored result is never deleted, and it is
    unchanged as long as no task with the same identifier is processed
    again; a later task with that identifier replaces it. *)
Theorem stored_result_kept (s : RealTimeProcessor) (ops : list op)
    (image_id : string) (entry : gmap string cacheval) :
  results_cache s !! image_id = Some entry →
  is_Some (results_cache (run s ops) !! image_id) ∧
  (image_id ∉ processed_ids s ops →
   results_cache (run s ops) !! image_id = Some entry).
Proof.
  intros Hs. split.
  - apply run_cache_kept. by rewrite Hs.
  - intros Hn. by rewrite run_cache_other.
Qed.

Lemma stored_result_kept_witness :
  let s := run (new_processor 4)
             [Submit one_pixel (Some "img_1") 0; Work sample_env] in
  let ops := [Submit (zeros 4 4) (Some "img_2") 1; Work sample_env] in
  results_cache (run s ops) !! "img_1"
  = Some (error_entry "img_1" (ValueError gradient_too_small)).
Proof.
  intros s ops.
  refine (proj2 (stored_result_kept s ops "img_1" _ _) _).
  - reflexivity.
  - change (processed_ids s ops) with ["img_2"].
    intros Hin. apply elem_of_cons in Hin as [Hin|Hin]; [discriminate|].
    by apply elem_of_nil in Hin.
Defined.

(** C3, as stated, fails: a second task submitted under the identifier of
    a stored result replaces that result when it is processed. *)
Lemma stored_result_replaced :
  ∃ entry,
    results_cache
      (run (new_processor 4)
         [Submit (zeros 4 4) (Some "img_1") 0; Work sample_env])
      !! "img_1" = Some entry ∧
    results_cache
      (run (run (new_processor 4)
              [Submit (zeros 4 4) (Some "img_1") 0; Work sample_env])
         [Submit one_pixel (Some "img_1") 1; Work sample_env])
      !! "img_1" ≠ Some entry.
Proof.
  set (s1 := run (new_processor 4)
               [Submit (zeros 4 4) (Some "img_1") 0; Work sample_env]).
  set (s2 := run s1 [Submit one_pixel (Some "img_1") 1; Work sample_env]).
  assert (cached_field s1 "img_1" "status" = Some (PStr "success")) as H1
    by reflexivity.
  assert (cached_field s2 "img_1" "status" = Some (PStr "error")) as H2
    by reflexivity.
  unfold cached_field in H1, H2.
  destruct (results_cache s1 !! "img_1") as [entry|]; [|done].
  exists entry. split; [done|]. intros E. rewrite E, H1 in H2. discriminate.
Qed.

(** ** Statistics *)

Section statistics.

Lemma record_success_consistent pt now st :
  stats_consistent (record_success pt now st).
Proof. split; simpl; [done|lia]. Qed.

Lemma record_error_consistent st :
  stats_consistent st → stats_consistent (record_error st).
Proof. done. Qed.

Lemma process_image_stats e s image_id a :
  (stats (_process_image e s image_id a)
   = record_success (t_end e - t_start e) (now_stats e) (stats s) ∧
   cached_field (_process_image e s image_id a) image_id "status"
   = Some (PStr "success"))
  ∨ (stats (_process_image e s image_id a) = record_error (stats s) ∧
     cached_field (_process_image e s image_id a) image_id "status"
     = Some (PStr "error")).
Proof.
  destruct (process_image_cases e s image_id a)
    as [(edge_map & features & _ & _ & _ & ->)|(ex & _ & _ & ->)].
  - left. split; [done|]. apply status_store_success.
  - right. split; [done|]. apply status_store_error.
Qed.

Lemma process_image_consistent e s image_id a :
  stats_consistent (stats s) →
  stats_consistent (stats (_process_image e s image_id a)).
Proof.
  intros Hs.
  destruct (process_image_stats e s image_id a) as [[-> _]|[-> _]].
  - apply record_success_consistent.
  - by apply record_error_consistent.
Qed.

Lemma step_consistent s o :
  stats_consistent (stats s) → stats_consistent (stats (step s o)).
Proof.
  intros Hs. destruct o as [a i ms|e|i|]; simpl; try done.
  destruct (0 <? max_workers s)%nat; [|done].
  unfold worker_iteration. destruct (is_running s); [|done].
  destruct (processing_queue s) as [|[[image_id a]|] q]; try done.
  by apply process_image_consistent.
Qed.

End statistics.

(** C4: after any sequence of operations of a fresh pipeline, the average
    processing time is the total processing time divided by the number of
    processed images whenever that number is positive, and it is zero
    while that number is zero; successful and failed runs both keep this. *)
Theorem average_is_total_over_count (workers : nat) (ops : list op) :
  let st := stats (run (new_processor workers) ops) in
  ((0 < processed_images st)%nat →
   average_processing_time st
   = total_processing_time st / INR (processed_images st)) ∧
  (processed_images st = 0%nat → average_processing_time st = 0).
Proof.
  change (stats_consistent (stats (run (new_processor workers) ops))).
  induction ops as [|o ops IH] using rev_ind.
  - split; simpl; [lia|done].
  - rewrite run_snoc. by apply step_consistent.
Qed.

Lemma average_is_total_over_count_witness :
  let st := stats (run (new_processor 4)
                     [Submit (zeros 4 4) (Some "img_1") 0; Work sample_env;
                      Submit one_pixel (Some "img_2") 1; Work sample_env]) in
  average_processing_time st
  = total_processing_time st / INR (processed_images st).
Proof.
  intros st.
  refine (proj1 (average_is_total_over_count 4
                   [Submit (zeros 4 4) (Some "img_1") 0; Work sample_env;
                    Submit one_pixel (Some "img_2") 1; Work sample_env]) _).
  change (0 < 1)%nat. lia.
Defined.

(** ** Lifecycle *)

Section lifecycle.

Lemma step_no_sentinel s o :
  None ∉ processing_queue s → None ∉ processing_queue (step s o).
Proof.
  intros Hs. destruct o as [a i ms|e|i|]; simpl; try done.
  - intros Hin. apply elem_of_app in Hin as [Hin|Hin]; [done|].
    apply list_elem_of_singleton in Hin. discriminate.
  - destruct (0 <? max_workers s)%nat; [|done].
    unfold worker_iteration. destruct (is_running s); [|done].
    destruct (processing_queue s) as [|t q] eqn:Hq; [by rewrite Hq|].
    apply not_elem_of_cons in Hs as [Ht Hs].
    destruct t as [[image_id a]|]; [|done].
    destruct (process_image_frame e (set_queue q s) image_id a)
      as (_ & _ & _ & -> & _). done.
Qed.

Lemma run_no_sentinel s ops :
  None ∉ processing_queue s → None ∉ processing_queue (run s ops).
Proof.
  revert s. induction ops as [|o ops IH]; intros s Hs; [done|].
  rewrite run_cons. by apply IH, step_no_sentinel.
Qed.

End lifecycle.

(** C5, as the code has it: the controller has no shutdown operation.
    After any sequence of its operations the processor is still running,
    the queue holds no sentinel on which a worker would leave its loop,
    and every submission is accepted: the task is appended to the queue
    and its identifier is returned. *)
Theorem no_shutdown (workers : nat) (ops : list op) :
  let s := run (new_processor workers) ops in
  is_running s = true ∧
  (None ∉ processing_queue s) ∧
  ∀ now_ms image_data image_id,
    let r := submit_image now_ms s image_data image_id in
    fst r = default (generated_id now_ms) image_id ∧
    processing_queue (snd r) = processing_queue s ++ [Some (fst r, image_data)] ∧
    is_running (snd r) = true.
Proof.
  intros s. assert (is_running s = true) as Hr.
  { subst s. by rewrite run_is_running. }
  split; [done|]. split.
  - apply run_no_sentinel. simpl. apply not_elem_of_nil.
  - intros now_ms image_data image_id. simpl.
    split; [by destruct image_id|]. split; [|done]. by destruct image_id.
Qed.

(** C5, as stated, fails: no operation of the controller stops the
    processor or makes it reject a submission. *)
Lemma no_operation_stops_submissions :
  ¬ ∃ o : op,
      is_running (step (new_processor 4) o) = false ∨
      rejects_submissions (step (new_processor 4) o).
Proof.
  intros [o [Hstop|Hrej]].
  - rewrite step_is_running in Hstop. discriminate.
  - specialize (Hrej 0%Z (zeros 4 4) None). simpl in Hrej.
    apply (f_equal length) in Hrej. rewrite length_app in Hrej.
    simpl in Hrej. lia.
Qed.

(** ** The all-zero image *)

Section zero_image.

Lemma at_zeros h w i j : at_ (zeros h w) i j = 0.
Proof.
  unfold at_, zeros. simpl.
  assert (∀ n k, nth k (replicate n 0) 0 = 0) as Hrow.
  { induction n as [|n IH]; intros [|k]; simpl; auto. }
  revert i. induction h as [|h IH]; intros [|i]; simpl; auto.
  - by destruct j.
  - by destruct j.
Qed.

Lemma gradient1_zero n f i : (∀ k, f k = 0) → gradient1 n f i = 0.
Proof.
  intros Hf. unfold gradient1. rewrite !Hf.
  destruct (i =? 0)%nat; [lra|]. destruct (i =? n - 1)%nat; lra.
Qed.

Lemma tabulate_zero h w f :
  (∀ i j, f i j = 0) → Forall all_zero (rows (tabulate h w f)).
Proof.
  intros Hf. simpl. apply Forall_forall. intros r Hr.
  apply list_elem_of_In, in_map_iff in Hr as (i & <- & _).
  apply Forall_forall. intros x Hx.
  apply list_elem_of_In, in_map_iff in Hx as (j & <- & _). apply Hf.
Qed.

Lemma zip_with_zero (f : R → R → R) (P : R → Prop) xs ys :
  P (f 0 0) → all_zero xs → all_zero ys → Forall P (zip_with f xs ys).
Proof.
  intros Hf Hx. revert ys. induction Hx as [|x xs -> _ IH]; intros ys Hy.
  - constructor.
  - destruct Hy as [|y ys -> Hys]; simpl; constructor; auto.
Qed.

Lemma zip_with_rows_zero (f : R → R → R) (P : R → Prop) xs ys :
  P (f 0 0) → Forall all_zero xs → Forall all_zero ys →
  Forall (Forall P) (zip_with (zip_with f) xs ys).
Proof.
  intros Hf Hx. revert ys. induction Hx as [|x xs Hx0 _ IH]; intros ys Hy.
  - constructor.
  - destruct Hy as [|y ys Hy0 Hys]; simpl; constructor; auto.
    by apply zip_with_zero.
Qed.

Lemma Forall_rows_map (P Q : R → Prop) (f : R → R) (m : list (list R)) :
  (∀ x, P x → Q (f x)) → Forall (Forall P) m → Forall (Forall Q) (map (map f) m).
Proof.
  intros Hf Hm. induction Hm as [|r m Hr _ IH]; simpl; constructor; [|done].
  induction Hr as [|x r Hx _ IHr]; simpl; constructor; auto.
Qed.

Lemma np_clip_zero : np_clip 0 1 0 = 0.
Proof. unfold np_clip, Rmin, Rmax. repeat destruct (Rle_dec _ _); lra. Qed.

Lemma magnitude_zero : sqrt (0 ^ 2 + 0 ^ 2) = 0.
Proof. replace (0 ^ 2 + 0 ^ 2) with 0 by ring. apply sqrt_0. Qed.

(** Every element of the edge map of an all-zero image is zero. *)
Lemma edge_map_of_zeros h w edge_map :
  quantum_edge_detection (zeros h w) = inr edge_map →
  Forall all_zero (rows edge_map).
Proof.
  unfold quantum_edge_detection, np_gradient.
  change (ncols (zeros h w)) with w. change (nrows (zeros h w)) with h.
  destruct (w <? 2)%nat; [done|]. destruct (h <? 2)%nat; [done|].
  cbv beta iota delta [bind ret raise]. intros [= <-].
  unfold map_ndarray, map2_ndarray. cbn [rows]. unfold all_zero.
  apply (Forall_rows_map (λ x, x = 0)); [intros x ->; apply np_clip_zero|].
  apply (Forall_rows_map (λ x, x = 0)); [intros x ->; apply Rmult_0_l|].
  apply zip_with_rows_zero.
  - apply magnitude_zero.
  - apply tabulate_zero. intros i j. apply gradient1_zero.
    intros k. apply at_zeros.
  - apply tabulate_zero. intros i j. apply gradient1_zero.
    intros k. apply at_zeros.
Qed.

Lemma np_sum_zero l : all_zero l → np_sum l = 0.
Proof.
  induction 1 as [|x l -> _ IH]; simpl; [done|]. rewrite IH. lra.
Qed.

Lemma np_mean_zero l : all_zero l → np_mean l = 0.
Proof.
  intros H. unfold np_mean. rewrite (np_sum_zero _ H).
  unfold Rdiv. apply Rmult_0_l.
Qed.

Lemma np_std_zero l : all_zero l → np_std l = 0.
Proof.
  intros H. unfold np_std, np_var. rewrite (np_mean_zero _ H).
  rewrite np_mean_zero; [apply sqrt_0|].
  induction H as [|x l -> _ IH]; simpl; constructor; [|done].
  rewrite Rminus_diag, Rabs_R0. ring.
Qed.

Lemma edge_quality_of_zeros h w edge_map :
  quantum_edge_detection (zeros h w) = inr edge_map →
  np_std (flatten edge_map) = 0.
Proof.
  intros E. apply np_std_zero. unfold flatten, all_zero.
  apply Forall_concat. by eapply edge_map_of_zeros.
Qed.

End zero_image.

(** ** Draining the queue *)

Section draining.

Lemma work_step s e image_id a q :
  (0 < max_workers s)%nat → is_running s = true →
  processing_queue s = Some (image_id, a) :: q →
  step s (Work e) = _process_image e (set_queue q s) image_id a.
Proof.
  intros Hw Hr Hq. simpl. apply Nat.ltb_lt in Hw. rewrite Hw.
  unfold worker_iteration. by rewrite Hr, Hq.
Qed.

(** As many worker iterations as there are queued tasks empty the queue
    and leave a result for every task. *)
Lemma drain s tasks envs :
  (0 < max_workers s)%nat → is_running s = true →
  processing_queue s = map Some tasks → length envs = length tasks →
  processing_queue (run s (map Work envs)) = [] ∧
  ∀ image_id a, (image_id, a) ∈ tasks →
    is_Some (results_cache (run s (map Work envs)) !! image_id).
Proof.
  revert s envs. induction tasks as [|[image_id a] tasks IH];
    intros s envs Hw Hr Hq Hlen.
  - destruct envs; [|done]. split; [done|].
    intros i b Hin. by apply elem_of_nil in Hin.
  - destruct envs as [|e envs]; [done|]. injection Hlen as Hlen.
    simpl map. rewrite run_cons.
    rewrite (work_step s e image_id a (map Some tasks)) by done.
    destruct (process_image_frame e (set_queue (map Some tasks) s) image_id a)
      as (entry & Hc & _ & Hq' & Hr' & Hw').
    destruct (IH (_process_image e (set_queue (map Some tasks) s) image_id a)
                envs) as [Hempty Hall]; [by rewrite Hw'|by rewrite Hr'|done..|].
    split; [done|]. intros i b Hin.
    apply elem_of_cons in Hin as [[= -> ->]|Hin]; [|by eapply Hall].
    apply run_cache_kept. rewrite Hc, lookup_insert_eq. eauto.
Qed.

Lemma cached_field_other e s image_id a image_id' f :
  image_id ≠ image_id' →
  cached_field (_process_image e s image_id a) image_id' f
  = cached_field s image_id' f.
Proof.
  intros Hne. unfold cached_field.
  destruct (process_image_frame e s image_id a) as (entry & -> & _).
  by rewrite lookup_insert_ne.
Qed.

(** Processing the all-zero 4-by-4 image succeeds with edge quality 0. *)
Lemma process_zeros e s image_id :
  flat_success (_process_image e s image_id (zeros 4 4)) image_id ∧
  stats (_process_image e s image_id (zeros 4 4))
  = record_success (t_end e - t_start e) (now_stats e) (stats s).
Proof.
  destruct (process_image_cases e s image_id (zeros 4 4))
    as [(edge_map & features & E & _ & _ & ->)|(ex & Hex & _)].
  - split; [|done]. split; [apply status_store_success|].
    rewrite cached_field_store_success. unfold success_result. lookup_field.
    by rewrite (edge_quality_of_zeros 4 4 edge_map E).
  - destruct (try_process_returns e s image_id (zeros 4 4)) as [s' Hs'];
      [apply zeros_wf|simpl; lia..|]. congruence.
Qed.

Lemma drain_zeros s ids envs :
  (0 < max_workers s)%nat → is_running s = true →
  processing_queue s = map (λ image_id, Some (image_id, zeros 4 4)) ids →
  length envs = length ids →
  let s' := run s (map Work envs) in
  processing_queue s' = [] ∧
  processed_images (stats s') = (processed_images (stats s) + length ids)%nat ∧
  errors (stats s') = errors (stats s) ∧
  dom (results_cache s') = dom (results_cache s) ∪ list_to_set ids ∧
  ∀ image_id, image_id ∈ ids ∨ flat_success s image_id →
    flat_success s' image_id.
Proof.
  revert s envs. induction ids as [|image_id ids IH];
    intros s envs Hw Hr Hq Hlen.
  - destruct envs; [|done]. simpl. split; [done|]. split; [lia|].
    split; [done|]. split; [by rewrite (right_id_L ∅ (∪))|].
    intros i [Hin|Hi]; [by apply elem_of_nil in Hin|done].
  - destruct envs as [|e envs]; [done|]. injection Hlen as Hlen.
    simpl map. rewrite run_cons. simpl in Hq.
    rewrite (work_step s e image_id (zeros 4 4) _ Hw Hr Hq).
    set (q := map (λ image_id, Some (image_id, zeros 4 4)) ids) in *.
    destruct (process_image_frame e (set_queue q s) image_id (zeros 4 4))
      as (entry & Hc & _ & Hq' & Hr' & Hw').
    destruct (process_zeros e (set_queue q s) image_id) as [Hflat Hst].
    destruct (IH (_process_image e (set_queue q s) image_id (zeros 4 4)) envs)
      as (Hempty & Hcount & Herr & Hdom & Hall);
      [by rewrite Hw'|by rewrite Hr'|done..|].
    split; [done|]. split; [|split; [|split]].
    + rewrite Hcount, Hst. simpl. lia.
    + rewrite Herr, Hst. done.
    + rewrite Hdom, Hc, dom_insert_L. simpl.
      by rewrite (comm_L (∪) {[image_id]}), <- (assoc_L (∪)).
    + intros i Hi. apply Hall.
      destruct (decide (i ∈ ids)) as [Hin|Hnin]; [by left|right].
      destruct (decide (image_id = i)) as [<-|Hne]; [done|].
      destruct Hi as [Hi|Hi]; [apply elem_of_cons in Hi as [->|Hi]; done|].
      unfold flat_success. by rewrite !cached_field_other.
Qed.

Lemma run_submit_all s a subs :
  let s' := run s (submit_all a subs) in
  processing_queue s'
  = processing_queue s
    ++ map (λ image_id, Some (image_id, a)) (map submitted_id subs) ∧
  results_cache s' = results_cache s ∧
  is_running s' = is_running s ∧
  max_workers s' = max_workers s ∧
  processed_images (stats s') = processed_images (stats s) ∧
  errors (stats s') = errors (stats s).
Proof.
  revert s. induction subs as [|[image_id now_ms] subs IH]; intros s; simpl.
  - by rewrite app_nil_r.
  - destruct (IH (snd (submit_image now_ms s a image_id)))
      as (Hq & Hc & Hr & Hw & Hp & He).
    unfold submit_all in *. simpl in *.
    rewrite Hq, Hc, Hr, Hw, Hp, He. rewrite <- app_assoc.
    by destruct image_id.
Qed.

End draining.

(** ** Scenarios *)

(** C1: when the algorithms raise on the task at the head of the queue,
    the worker iteration stores for its identifier a result with status
    ['error'] and the non-empty message of the exception, adds exactly 1
    to the error counter and leaves the processed count and the total
    processing time as they were. The processor keeps running, the other
    queued tasks stay queued and the results of other identifiers are
    untouched; draining the queue then leaves a result for each of them. *)
Theorem transform_failure_recovered (e : env) (s : RealTimeProcessor)
    (image_id : string) (image_data : ndarray)
    (others : list (string * ndarray)) (ex : exn) :
  (0 < max_workers s)%nat → is_running s = true →
  processing_queue s = Some (image_id, image_data) :: map Some others →
  run_algorithms e image_data = inl ex →
  let s' := step s (Work e) in
  results_cache s' !! image_id = Some (error_entry image_id ex) ∧
  cached_field s' image_id "status" = Some (PStr "error") ∧
  cached_field s' image_id "error" = Some (PStr (str ex)) ∧
  str ex ≠ "" ∧
  errors (stats s') = S (errors (stats s)) ∧
  processed_images (stats s') = processed_images (stats s) ∧
  total_processing_time (stats s') = total_processing_time (stats s) ∧
  is_running s' = true ∧
  processing_queue s' = map Some others ∧
  (∀ other, other ≠ image_id →
     results_cache s' !! other = results_cache s !! other) ∧
  ∀ envs, length envs = length others →
    processing_queue (run s' (map Work envs)) = [] ∧
    ∀ other a, (other, a) ∈ others →
      is_Some (results_cache (run s' (map Work envs)) !! other).
Proof.
  intros Hw Hr Hq Hex s'.
  assert (s' = store_error (set_queue (map Some others) s) image_id ex) as Hs'.
  { subst s'. rewrite (work_step s e image_id image_data _ Hw Hr Hq).
    unfold _process_image, try_process. by rewrite Hex. }
  rewrite Hs'.
  split; [simpl; by rewrite lookup_insert_eq|].
  split; [apply status_store_error|].
  split; [rewrite cached_field_store_error; by lookup_field|].
  split; [by eapply run_algorithms_message|].
  do 5 (split; [done|]).
  split; [intros other Hne; simpl; by rewrite lookup_insert_ne|].
  intros envs Hlen. by apply drain.
Qed.

Lemma transform_failure_recovered_witness :
  let s := run (new_processor 4)
             [Submit one_pixel (Some "img_1") 0;
              Submit (zeros 4 4) (Some "img_2") 1] in
  let s' := step s (Work sample_env) in
  cached_field s' "img_1" "status" = Some (PStr "error") ∧
  errors (stats s') = 1%nat ∧
  is_Some (results_cache (run s' [Work sample_env]) !! "img_2").
Proof.
  intros s s'.
  destruct (transform_failure_recovered sample_env s "img_1" one_pixel
              [("img_2", zeros 4 4)] (ValueError gradient_too_small))
    as (_ & Hstatus & _ & _ & Herr & _ & _ & _ & _ & _ & Hdrain).
  - simpl. lia.
  - reflexivity.
  - reflexivity.
  - reflexivity.
  - split; [exact Hstatus|]. split; [exact Herr|].
    destruct (Hdrain [sample_env]) as [_ Hall]; [reflexivity|].
    apply (Hall "img_2" (zeros 4 4)). apply elem_of_cons. by left.
Defined.





(** The identifiers must be distinct: two submissions without identifier
    at the same clock reading share the generated identifier, and the two
    runs leave a single result. *)
Example same_millisecond_one_result :
  let subs := [(None, 1700000000000%Z); (None, 1700000000000%Z)] in
  let s := run (new_processor 4)
             (submit_all (zeros 4 4) subs
              ++ map Work [sample_env; sample_env]) in
  processed_images (stats s) = 2%nat ∧
  dom (results_cache s) = ({["img_1700000000000"]} : gset string).
Proof.
  intros subs s. subst s. rewrite run_app.
  destruct (run_submit_all (new_processor 4) (zeros 4 4) subs)
    as (Hq & Hc & Hr & Hmw & Hp & He).
  destruct (drain_zeros (run (new_processor 4) (submit_all (zeros 4 4) subs))
              (map submitted_id subs) [sample_env; sample_env])
    as (_ & Hcount & _ & Hdom & _);
    [rewrite Hmw; simpl; lia|by rewrite Hr|by rewrite Hq|done|].
  split.
  - by rewrite Hcount, Hp.
  - rewrite Hdom, Hc.
    assert (map submitted_id subs
            = ["img_1700000000000"; "img_1700000000000"]) as ->
      by (vm_compute; reflexivity).
    simpl. rewrite dom_empty_L. set_solver.
Qed.

(** * Further properties of the transforms *)

Section more_edge_detection.

Lemma tabulate_ext h w f g :
  (∀ i j, (i < h)%nat → (j < w)%nat → f i j = g i j) →
  tabulate h w f = tabulate h w g.
Proof.
  intros Hfg. unfold tabulate. f_equal.
  apply map_ext_in. intros i Hi. apply in_seq in Hi.
  apply map_ext_in. intros j Hj. apply in_seq in Hj.
  apply Hfg; lia.
Qed.

Lemma map_const_seq {A} (x : A) start n :
  map (λ _, x) (seq start n) = replicate n x.
Proof.
  revert start. induction n as [|n IH]; intros start; simpl; [done|].
  by rewrite IH.
Qed.

Lemma map_replicate {A B} (f : A → B) n x :
  map f (replicate n x) = replicate n (f x).
Proof. induction n as [|n IH]; simpl; [done|]. by rewrite IH. Qed.

Lemma tabulate_const h w c : tabulate h w (λ _ _, c) = full h w c.
Proof. unfold tabulate, full. by rewrite !map_const_seq. Qed.

Lemma at_full h w c i j :
  (i < h)%nat → (j < w)%nat → at_ (full h w c) i j = c.
Proof.
  intros Hi Hj. unfold at_, full. simpl.
  assert (∀ {A} n (x d : A) k, (k < n)%nat → nth k (replicate n x) d = x)
    as Hnth.
  { intros A n x d. induction n as [|n IH]; intros [|k] Hk; simpl;
      try lia; [done|]. apply IH. lia. }
  by rewrite !Hnth.
Qed.

(** The samples read by [gradient1] at an index below [n] all lie below
    [n], so the gradient only depends on them. *)
Lemma gradient1_ext n f g i :
  (2 ≤ n)%nat → (i < n)%nat →
  (∀ k, (k < n)%nat → f k - g k = f 0%nat - g 0%nat) →
  gradient1 n f i = gradient1 n g i.
Proof.
  intros Hn Hi Hfg. unfold gradient1.
  destruct (i =? 0)%nat eqn:H0.
  - pose proof (Hfg 1%nat ltac:(lia)). lra.
  - apply Nat.eqb_neq in H0. destruct (i =? n - 1)%nat eqn:H1.
    + pose proof (Hfg (n - 1)%nat ltac:(lia)).
      pose proof (Hfg (n - 2)%nat ltac:(lia)). lra.
    + apply Nat.eqb_neq in H1.
      pose proof (Hfg (i + 1)%nat ltac:(lia)).
      pose proof (Hfg (i - 1)%nat ltac:(lia)). lra.
Qed.

Lemma gradient1_const n f c i :
  (2 ≤ n)%nat → (i < n)%nat → (∀ k, (k < n)%nat → f k = c) →
  gradient1 n f i = 0.
Proof.
  intros Hn Hi Hf.
  rewrite (gradient1_ext n f (λ _, c) i Hn Hi).
  - unfold gradient1. destruct (i =? 0)%nat; [lra|].
    destruct (i =? n - 1)%nat; lra.
  - intros k Hk. rewrite (Hf k Hk), (Hf 0%nat) by lia. lra.
Qed.

(** X2: the edge map of a uniform image with both dimensions at least 2
    is the all-zero array of the same shape, whatever the grey level. *)
Theorem edge_map_of_uniform_image (h w : nat) (c : R) :
  (2 ≤ h)%nat → (2 ≤ w)%nat →
  quantum_edge_detection (full h w c) = inr (zeros h w).
Proof.
  intros Hh Hw. unfold quantum_edge_detection, np_gradient.
  change (nrows (full h w c)) with h. change (ncols (full h w c)) with w.
  apply Nat.ltb_ge in Hh as Hh', Hw as Hw'. rewrite Hh', Hw'.
  cbv beta iota delta [bind ret raise].
  assert (tabulate h w (λ i j, gradient1 w (λ k, at_ (full h w c) i k) j)
          = zeros h w) as ->.
  { rewrite (tabulate_ext h w _ (λ _ _, 0)); [apply tabulate_const|].
    intros i j Hi Hj. apply (gradient1_const _ _ c); [done..|].
    intros k Hk. by apply at_full. }
  assert (tabulate h w (λ i j, gradient1 h (λ k, at_ (full h w c) k j) i)
          = zeros h w) as ->.
  { rewrite (tabulate_ext h w _ (λ _ _, 0)); [apply tabulate_const|].
    intros i j Hi Hj. apply (gradient1_const _ _ c); [done..|].
    intros k Hk. by apply at_full. }
  unfold map_ndarray, map2_ndarray, zeros. cbn [rows nrows ncols].
  do 2 f_equal.
  rewrite zip_with_replicate, zip_with_replicate, !map_replicate.
  by rewrite magnitude_zero, Rmult_0_l, np_clip_zero.
Qed.

Lemma edge_map_of_uniform_image_witness :
  quantum_edge_detection (full 3 5 0.5) = inr (zeros 3 5).
Proof. apply edge_map_of_uniform_image; lia. Defined.

(** X3: edge detection has exactly one failure: the [ValueError] of
    [np.gradient], raised if and only if a dimension is below 2. *)
Theorem edge_detection_failure (image_data : ndarray) :
  match quantum_edge_detection image_data with
  | inl ex =>
      ex = ValueError gradient_too_small ∧
      gradient_defined image_data = false
  | inr _ => gradient_defined image_data = true
  end.
Proof.
  unfold gradient_defined.
  destruct (quantum_edge_detection image_data) as [ex|edge_map] eqn:E.
  - apply quantum_edge_detection_raises in E as [-> Hsmall].
    split; [done|]. apply andb_false_iff.
    rewrite !Nat.leb_gt. tauto.
  - apply andb_true_iff. rewrite !Nat.leb_le.
    destruct (decide (2 ≤ nrows image_data)%nat);
      destruct (decide (2 ≤ ncols image_data)%nat); try done;
      rewrite quantum_edge_detection_small in E by lia; done.
Qed.

End more_edge_detection.

Section more_compression.

(** X4: the compression never looks at the pixels: two well-formed images
    with the same number of elements get the same compressed data and the
    same qubit count from the same random draws. *)
Theorem compression_ignores_pixels (r1 r2 : nat → R) (a b : ndarray) :
  wf_ndarray a → wf_ndarray b → size_of a = size_of b →
  quantum_image_compression r1 r2 a = quantum_image_compression r1 r2 b.
Proof.
  intros Ha Hb Hsize. unfold quantum_image_compression.
  by rewrite !flatten_length, Hsize.
Qed.

Lemma compression_ignores_pixels_witness :
  quantum_image_compression (rand1 sample_env) (rand2 sample_env) (zeros 4 4)
  = quantum_image_compression (rand1 sample_env) (rand2 sample_env)
      (full 2 8 0.5).
Proof.
  apply compression_ignores_pixels.
  - apply zeros_wf.
  - split; simpl; [done|]. by repeat constructor.
  - reflexivity.
Defined.

Lemma log2_between b x : (2 ^ b ≤ x < 2 ^ S b)%nat → Nat.log2 x = b.
Proof. intros H. apply Nat.log2_unique; [lia|done]. Qed.

(** X5: the qubit count as a function of the number [n] of elements of a
    well-formed image: 4 below 128 elements, [log2 (n / 4)] from 128 to
    1023 elements, and 8 from 1024 elements on. *)
Theorem qubits_by_size (r1 r2 : nat → R) (image_data : ndarray) :
  wf_ndarray image_data →
  let n := size_of image_data in
  let n_qubits := snd (quantum_image_compression r1 r2 image_data) in
  ((n < 128)%nat → n_qubits = 4%nat) ∧
  ((128 ≤ n < 1024)%nat → n_qubits = Nat.log2 (n / 4)) ∧
  ((1024 ≤ n)%nat → n_qubits = 8%nat).
Proof.
  intros Hwf n n_qubits. subst n_qubits. unfold quantum_image_compression.
  cbn [snd]. rewrite (flatten_length _ Hwf). fold n.
  unfold compressed_size_of.
  split; [|split]; intros Hn.
  - assert (n / 4 < 32)%nat by (apply Nat.Div0.div_lt_upper_bound; lia).
    rewrite (log2_between 4); [done|].
    change (2 ^ 4)%nat with 16%nat. change (2 ^ 5)%nat with 32%nat. lia.
  - assert (32 ≤ n / 4)%nat by (apply Nat.div_le_lower_bound; lia).
    assert (n / 4 < 256)%nat by (apply Nat.Div0.div_lt_upper_bound; lia).
    rewrite Nat.max_l by lia.
    assert (Nat.log2 (n / 4) < 8)%nat; [|lia].
    apply Nat.log2_lt_pow2; [lia|]. change (2 ^ 8)%nat with 256%nat. lia.
  - assert (256 ≤ n / 4)%nat as H by (apply Nat.div_le_lower_bound; lia).
    rewrite Nat.max_l by lia.
    apply Nat.log2_le_mono in H.
    rewrite (log2_between 8 256) in H; [lia|].
    change (2 ^ 8)%nat with 256%nat. change (2 ^ 9)%nat with 512%nat. lia.
Qed.

Lemma qubits_by_size_witness :
  snd (quantum_image_compression (rand1 sample_env) (rand2 sample_env)
         (zeros 32 32)) = 8%nat.
Proof.
  refine (proj2 (proj2 (qubits_by_size _ _ (zeros 32 32) _)) _).
  - apply zeros_wf.
  - reflexivity.
Defined.

End more_compression.

(** * Further properties of feature extraction and of stored values *)

Section more_features.

(** X6: on a well-formed image feature extraction has exactly one
    failure: the [ValueError] of [np.min] on an array without elements;
    it returns whenever the image has an element. *)
Theorem feature_extraction_failure (image_data : ndarray) :
  wf_ndarray image_data →
  match quantum_feature_extraction image_data with
  | inl ex =>
      ex = ValueError
             "zero-size array to reduction operation minimum which has no identity"
      ∧ size_of image_data = 0%nat
  | inr _ => (0 < size_of image_data)%nat
  end.
Proof.
  intros Hwf. rewrite <- (flatten_length _ Hwf).
  unfold quantum_feature_extraction.
  destruct (flatten image_data) as [|x t]; simpl; [done|lia].
Qed.

Lemma feature_extraction_failure_witness :
  quantum_feature_extraction (zeros 0 5)
  = inl (ValueError
      "zero-size array to reduction operation minimum which has no identity").
Proof.
  pose proof (feature_extraction_failure (zeros 0 5) (zeros_wf 0 5)) as H.
  destruct (quantum_feature_extraction (zeros 0 5)) as [ex|features].
  - destruct H as [-> _]. reflexivity.
  - unfold size_of in H. simpl in H. lia.
Defined.


End more_features.

(** * Further properties of the pipeline *)

Section outcomes.

(** The status stored for a well-formed image follows from its shape. *)
Lemma outcome_by_shape e s image_id a :
  wf_ndarray a →
  cached_field (_process_image e s image_id a) image_id "status"
  = Some (PStr (if gradient_defined a then "success" else "error")).
Proof.
  intros Hwf. unfold gradient_defined.
  destruct (decide (2 ≤ nrows a ∧ 2 ≤ ncols a)%nat) as [[Hr Hc]|Hsmall].
  - apply Nat.leb_le in Hr as Hr', Hc as Hc'. rewrite Hr', Hc'. simpl.
    destruct (try_process_returns e s image_id a Hwf Hr Hc) as [s' Hs'].
    apply try_process_inr in Hs' as Hinv.
    destruct Hinv as (edge_map & features & _ & _ & _ & ->).
    unfold _process_image. rewrite Hs'. apply status_store_success.
  - assert ((2 <=? nrows a)%nat && (2 <=? ncols a)%nat = false) as ->
      by (apply andb_false_iff; rewrite !Nat.leb_gt; lia).
    assert (quantum_edge_detection a = inl (ValueError gradient_too_small))
      as E by (apply quantum_edge_detection_small; lia).
    unfold _process_image, try_process, run_algorithms. rewrite E. simpl.
    apply status_store_error.
Qed.

(** X9: on a well-formed image a run has one of two outcomes, decided by
    the shape alone: status ['success'] when both dimensions are at least
    2, and otherwise status ['error'] with the message of [np.gradient]. *)
Theorem processing_outcome (e : env) (s : RealTimeProcessor)
    (image_id : string) (image_data : ndarray) :
  wf_ndarray image_data →
  let s' := _process_image e s image_id image_data in
  (gradient_defined image_data = true ∧
   cached_field s' image_id "status" = Some (PStr "success") ∧
   cached_field s' image_id "error" = None)
  ∨ (gradient_defined image_data = false ∧
     cached_field s' image_id "status" = Some (PStr "error") ∧
     cached_field s' image_id "error" = Some (PStr gradient_too_small)).
Proof.
  intros Hwf s'. subst s'. unfold gradient_defined.
  destruct (decide (2 ≤ nrows image_data ∧ 2 ≤ ncols image_data)%nat)
    as [[Hr Hc]|Hsmall].
  - left. split; [apply andb_true_iff; by rewrite !Nat.leb_le|].
    destruct (try_process_returns e s image_id image_data Hwf Hr Hc)
      as [s' Hs'].
    apply try_process_inr in Hs' as Hinv.
    destruct Hinv as (edge_map & features & _ & _ & _ & ->).
    unfold _process_image. rewrite Hs'.
    split; [apply status_store_success|].
    rewrite cached_field_store_success. unfold success_result.
    by lookup_field.
  - right. split; [apply andb_false_iff; rewrite !Nat.leb_gt; lia|].
    assert (quantum_edge_detection image_data
            = inl (ValueError gradient_too_small)) as E
      by (apply quantum_edge_detection_small; lia).
    unfold _process_image, try_process, run_algorithms. rewrite E. simpl.
    split; [apply status_store_error|].
    rewrite cached_field_store_error. by lookup_field.
Qed.

Lemma processing_outcome_witness :
  cached_field (_process_image sample_env (new_processor 4) "img_1" one_pixel)
    "img_1" "error" = Some (PStr gradient_too_small).
Proof.
  destruct (processing_outcome sample_env (new_processor 4) "img_1" one_pixel)
    as [(Hgood & _)|(_ & _ & Herr)].
  - split; [done|]. by repeat constructor.
  - discriminate Hgood.
  - exact Herr.
Defined.

Lemma INR_quarter n : 4 * INR (n / 4) <= INR n.
Proof.
  replace 4 with (INR 4) by (rewrite INR_IZR_INZ; reflexivity).
  rewrite <- mult_INR. apply le_INR.
  apply Nat.Div0.mul_div_le.
Qed.

(** X10: the compression ratio stored for a well-formed image of [n]
    elements is at most one quarter exactly from 64 elements on; below 64
    elements it is [16 / n], and below 16 elements it exceeds 1: the
    compressed representation is then larger than the image. *)
Theorem compression_ratio_bounds (e : env) (s : RealTimeProcessor)
    (image_id : string) (image_data : ndarray) :
  wf_ndarray image_data →
  cached_field (_process_image e s image_id image_data) image_id "status"
  = Some (PStr "success") →
  let n := size_of image_data in
  ∃ ratio,
    cached_field (_process_image e s image_id image_data) image_id
      "compression_ratio" = Some (PFloat ratio) ∧
    ((64 ≤ n)%nat → ratio <= 1 / 4) ∧
    ((n < 64)%nat → ratio = 16 / INR n ∧ 1 / 4 < ratio) ∧
    ((n < 16)%nat → 1 < ratio).
Proof.
  intros Hwf Hok n.
  apply status_success_inv in Hok as (edge_map & features & _ & _ & Hn & ->).
  exists (ratio_of image_data). split.
  { rewrite cached_field_store_success. unfold success_result.
    by lookup_field. }
  unfold ratio_of, compressed_size_of. rewrite (flatten_length _ Hwf).
  fold n. fold n in Hn.
  assert (0 < INR n) as Hpos by (apply lt_0_INR; lia).
  pose proof (Rinv_0_lt_compat _ Hpos) as Hinv.
  assert (INR n * / INR n = 1) as Hone by (apply Rinv_r; lra).
  unfold Rdiv.
  assert (∀ k, (k < 64)%nat → (k / 4 < 16)%nat) as Hsmall
    by (intros k Hk; apply Nat.Div0.div_lt_upper_bound; lia).
  split; [|split].
  - intros Hbig.
    assert (16 ≤ n / 4)%nat by (apply Nat.div_le_lower_bound; lia).
    rewrite Nat.max_l by lia.
    pose proof (INR_quarter n). nra.
  - intros Hlt. specialize (Hsmall n Hlt). rewrite Nat.max_r by lia.
    replace (INR 16) with 16 by (rewrite INR_IZR_INZ; reflexivity).
    split; [done|].
    assert (INR n < 64).
    { replace 64 with (INR 64) by (rewrite INR_IZR_INZ; reflexivity).
      apply lt_INR. lia. }
    nra.
  - intros Hlt. specialize (Hsmall n ltac:(lia)). rewrite Nat.max_r by lia.
    assert (INR n < INR 16) by (apply lt_INR; lia).
    replace (INR 16) with 16 in * by (rewrite INR_IZR_INZ; reflexivity).
    nra.
Qed.

Lemma compression_ratio_bounds_witness :
  ∃ ratio,
    cached_field (_process_image sample_env (new_processor 4) "img_1"
                    step_image) "img_1" "compression_ratio"
    = Some (PFloat ratio) ∧ 1 < ratio.
Proof.
  destruct (compression_ratio_bounds sample_env (new_processor 4) "img_1"
              step_image) as (ratio & E & _ & _ & Hbig).
  - split; [done|]. by repeat constructor.
  - reflexivity.
  - exists ratio. split; [exact E|]. apply Hbig. unfold size_of. simpl. lia.
Defined.

End outcomes.

Section accounting.

Lemma process_image_queued e s image_id a :
  queued_ids (_process_image e s image_id a) = queued_ids s.
Proof.
  unfold queued_ids.
  destruct (process_image_frame e s image_id a) as (_ & _ & _ & -> & _).
  done.
Qed.

(** A step takes the oldest queued identifier off the queue, or appends
    the identifier it submits, or leaves the queued identifiers alone. *)
Lemma step_queued_ids s o :
  match dequeued s o with
  | Some image_id => queued_ids s = image_id :: queued_ids (step s o)
  | None =>
      queued_ids (step s o)
      = queued_ids s ++ match submitted o with
                        | Some image_id => [image_id]
                        | None => []
                        end
  end.
Proof.
  destruct o as [a i ms|e|i|]; simpl.
  - unfold queued_ids. simpl. rewrite omap_app. by destruct i.
  - destruct (0 <? max_workers s)%nat; simpl; [|by rewrite app_nil_r].
    unfold worker_iteration.
    destruct (is_running s); [|by rewrite app_nil_r].
    destruct (processing_queue s) as [|[[image_id a]|] q] eqn:Hq.
    + by rewrite app_nil_r.
    + rewrite process_image_queued. unfold queued_ids. by rewrite Hq.
    + rewrite app_nil_r. unfold queued_ids. by rewrite Hq.
  - by rewrite app_nil_r.
  - by rewrite app_nil_r.
Qed.

(** The identifiers processed, followed by those still queued, are the
    identifiers queued at the start followed by those submitted. *)
Lemma trace_order s ops :
  processed_ids s ops ++ queued_ids (run s ops)
  = queued_ids s ++ submitted_ids ops.
Proof.
  revert s. induction ops as [|o ops IH]; intros s.
  - simpl. by rewrite app_nil_r.
  - rewrite run_cons. cbn [processed_ids].
    pose proof (step_queued_ids s o) as Hstep.
    destruct (dequeued s o) as [image_id|] eqn:Hd.
    + assert (submitted o = None) as Hsub.
      { destruct o; simpl in *; done. }
      unfold submitted_ids. cbn [omap list_omap]. rewrite Hsub.
      rewrite <- app_comm_cons, (IH (step s o)), Hstep. done.
    + rewrite (IH (step s o)), Hstep. unfold submitted_ids.
      cbn [omap list_omap].
      destruct (submitted o); by rewrite <- app_assoc.
Qed.


Lemma run_cache_dom s ops :
  dom (results_cache (run s ops))
  = dom (results_cache s) ∪ list_to_set (processed_ids s ops).
Proof.
  revert s. induction ops as [|o ops IH]; intros s.
  - simpl. by rewrite (right_id_L ∅ (∪)).
  - rewrite run_cons, IH. cbn [processed_ids].
    pose proof (step_cache s o) as Hstep.
    destruct (dequeued s o) as [image_id|].
    + destruct Hstep as (entry & -> & _).
      rewrite dom_insert_L. simpl.
      by rewrite (comm_L (∪) {[image_id]}), <- (assoc_L (∪)).
    + by rewrite Hstep.
Qed.

(** X13: [GET /api/result] answers ['processing'] exactly for the
    identifiers that no worker has processed yet, whether they are queued
    or were never submitted; for every other identifier it returns the
    stored entry. *)
Theorem result_pending_until_processed (workers : nat) (ops : list op)
    (image_id : string) :
  let s := run (new_processor workers) ops in
  match get_result s image_id with
  | None =>
      (image_id ∉ processed_ids (new_processor workers) ops) ∧
      get_result_route s image_id
      = mk_response 200 (JFields (<["status" := PStr "processing"]> ∅))
  | Some entry =>
      image_id ∈ processed_ids (new_processor workers) ops ∧
      get_result_route s image_id = mk_response 200 (JEntry entry)
  end.
Proof.
  intros s. unfold get_result_route.
  pose proof (run_cache_dom (new_processor workers) ops) as Hdom.
  fold s in Hdom. simpl in Hdom.
  rewrite dom_empty_L, (left_id_L ∅ (∪)) in Hdom.
  unfold get_result.
  destruct (results_cache s !! image_id) as [entry|] eqn:E.
  - split; [|done].
    apply (elem_of_list_to_set (C := gset string)). rewrite <- Hdom.
    apply elem_of_dom. eauto.
  - split; [|done].
    rewrite <- (elem_of_list_to_set (C := gset string)), <- Hdom.
    by apply not_elem_of_dom.
Qed.

End accounting.

Section batches.

Lemma submitted_ids_work envs : submitted_ids (map Work envs) = [].
Proof. induction envs as [|e envs IH]; [done|]. simpl. apply IH. Qed.

Lemma queued_ids_tasks s (tasks : list (string * ndarray)) :
  processing_queue s = map Some tasks → queued_ids s = tasks.*1.
Proof.
  unfold queued_ids. intros ->.
  induction tasks as [|[image_id a] tasks IH]; [done|].
  simpl. f_equal. apply IH.
Qed.

(** Worker iterations leave alone the results of the identifiers that
    are not in the queue. *)
Lemma drain_other s (tasks : list (string * ndarray)) envs image_id :
  processing_queue s = map Some tasks → image_id ∉ tasks.*1 →
  results_cache (run s (map Work envs)) !! image_id
  = results_cache s !! image_id.
Proof.
  intros Hq Hnot. apply run_cache_other. intros Hin. apply Hnot.
  pose proof (trace_order s (map Work envs)) as Hfifo.
  rewrite submitted_ids_work, app_nil_r, (queued_ids_tasks s tasks Hq)
    in Hfifo.
  rewrite <- Hfifo. apply elem_of_app. by left.
Qed.

(** X15: draining a queue of well-formed images adds to the processed
    count the number of images with both dimensions at least 2 and to the
    error count the number of the others, and empties the queue. *)
Theorem drain_counts (s : RealTimeProcessor) (tasks : list (string * ndarray))
    (envs : list env) :
  (0 < max_workers s)%nat → is_running s = true →
  processing_queue s = map Some tasks →
  Forall (λ t, wf_ndarray t.2) tasks →
  length envs = length tasks →
  let s' := run s (map Work envs) in
  processing_queue s' = [] ∧
  processed_images (stats s')
  = (processed_images (stats s)
     + length (filter (λ t, gradient_defined t.2 = true) tasks))%nat ∧
  errors (stats s')
  = (errors (stats s)
     + length (filter (λ t, gradient_defined t.2 = false) tasks))%nat.
Proof.
  revert s envs. induction tasks as [|[image_id a] tasks IH];
    intros s envs Hw Hr Hq Hwf Hlen.
  - destruct envs; [|done]. simpl. split; [done|]. split; lia.
  - destruct envs as [|e envs]; [done|]. injection Hlen as Hlen.
    apply Forall_cons in Hwf as [Ha Hwf].
    simpl map. rewrite run_cons.
    rewrite (work_step s e image_id a (map Some tasks)) by done.
    set (q := map Some tasks) in *.
    destruct (process_image_frame e (set_queue q s) image_id a)
      as (entry & _ & _ & Hq' & Hr' & Hw').
    destruct (IH (_process_image e (set_queue q s) image_id a) envs)
      as (Hempty & Hcount & Herr); [by rewrite Hw'|by rewrite Hr'|done..|].
    split; [done|]. rewrite Hcount, Herr, !filter_cons. cbn [snd].
    pose proof (outcome_by_shape e (set_queue q s) image_id a Ha) as Hs'.
    destruct (process_image_stats e (set_queue q s) image_id a)
      as [[-> Hs]|[-> Hs]];
      destruct (gradient_defined a); try congruence;
      repeat case_decide; try done; simpl; split; lia.
Qed.

Lemma drain_counts_witness :
  let s := run (new_processor 4)
             [Submit one_pixel (Some "img_1") 0;
              Submit (zeros 4 4) (Some "img_2") 1;
              Submit step_image (Some "img_3") 2] in
  let s' := run s (map Work [sample_env; sample_env; sample_env]) in
  processed_images (stats s') = 2%nat ∧ errors (stats s') = 1%nat.
Proof.
  intros s s'.
  destruct (drain_counts s
              [("img_1", one_pixel); ("img_2", zeros 4 4);
               ("img_3", step_image)]
              [sample_env; sample_env; sample_env])
    as (_ & Hp & He).
  - simpl. lia.
  - reflexivity.
  - reflexivity.
  - repeat constructor.
  - reflexivity.
  - split; [exact Hp|exact He].
Defined.

(** X16: after draining a queue of well-formed images that all have both
    dimensions at least 2, the processed count has grown by their number,
    the total processing time by the sum of the measured durations, the
    error count is unchanged and every image has a ['success'] result. *)
Theorem drain_successes (s : RealTimeProcessor)
    (tasks : list (string * ndarray)) (envs : list env) :
  (0 < max_workers s)%nat → is_running s = true →
  processing_queue s = map Some tasks →
  Forall (λ t, wf_ndarray t.2 ∧ gradient_defined t.2 = true) tasks →
  length envs = length tasks →
  let s' := run s (map Work envs) in
  processed_images (stats s')
  = (processed_images (stats s) + length tasks)%nat ∧
  total_processing_time (stats s')
  = total_processing_time (stats s) + total_duration envs ∧
  errors (stats s') = errors (stats s) ∧
  ∀ image_id a, (image_id, a) ∈ tasks →
    cached_field s' image_id "status" = Some (PStr "success").
Proof.
  revert s envs. induction tasks as [|[image_id a] tasks IH];
    intros s envs Hw Hr Hq Hgood Hlen.
  - destruct envs; [|done]. simpl. split; [lia|].
    split; [unfold total_duration; simpl; lra|]. split; [done|].
    intros i b Hin. by apply elem_of_nil in Hin.
  - destruct envs as [|e envs]; [done|]. injection Hlen as Hlen.
    apply Forall_cons in Hgood as [[Ha Hg] Hgood]. simpl in Ha, Hg.
    simpl map. rewrite run_cons.
    rewrite (work_step s e image_id a (map Some tasks)) by done.
    set (q := map Some tasks) in *.
    destruct (process_image_frame e (set_queue q s) image_id a)
      as (entry & _ & _ & Hq' & Hr' & Hw').
    destruct (IH (_process_image e (set_queue q s) image_id a) envs)
      as (Hcount & Htotal & Herr & Hall);
      [by rewrite Hw'|by rewrite Hr'|done..|].
    assert (cached_field (_process_image e (set_queue q s) image_id a)
              image_id "status" = Some (PStr "success")) as Hok.
    { rewrite (outcome_by_shape e (set_queue q s) image_id a Ha).
      by rewrite Hg. }
    assert (stats (_process_image e (set_queue q s) image_id a)
            = record_success (t_end e - t_start e) (now_stats e) (stats s))
      as Hst.
    { destruct (process_image_stats e (set_queue q s) image_id a)
        as [[-> _]|[_ Hs]]; [done|congruence]. }
    cbv zeta. rewrite Hcount, Htotal, Herr, Hst.
    split; [simpl; lia|]. split; [unfold total_duration; simpl; lra|].
    split; [done|].
    intros i b Hin. apply elem_of_cons in Hin as [[= -> ->]|Hin];
      [|by eapply Hall].
    destruct (decide (image_id ∈ tasks.*1)) as [Hlater|Hnot].
    + apply list_elem_of_fmap in Hlater as ([i b'] & -> & Hin).
      by eapply Hall.
    + unfold cached_field in *.
      rewrite (drain_other _ tasks envs image_id) by done. done.
Qed.

Lemma drain_successes_witness :
  let s := run (new_processor 4)
             [Submit (zeros 4 4) (Some "img_1") 0;
              Submit step_image (Some "img_2") 1] in
  let s' := run s (map Work [sample_env; sample_env]) in
  processed_images (stats s') = 2%nat ∧
  total_processing_time (stats s')
  = 0 + total_duration [sample_env; sample_env].
Proof.
  intros s s'.
  destruct (drain_successes s [("img_1", zeros 4 4); ("img_2", step_image)]
              [sample_env; sample_env])
    as (Hp & Ht & _).
  - simpl. lia.
  - reflexivity.
  - reflexivity.
  - repeat constructor.
  - reflexivity.
  - split; [exact Hp|exact Ht].
Defined.

End batches.

Section identifiers.

(** X17: two submissions without identifier are queued under the same
    generated identifier exactly when they are made at the same clock
    reading. *)
Theorem generated_ids_collide_iff (ms1 ms2 : Z) (s1 s2 : RealTimeProcessor)
    (a1 a2 : ndarray) :
  fst (submit_image ms1 s1 a1 None) = fst (submit_image ms2 s2 a2 None)
  ↔ ms1 = ms2.
Proof.
  simpl. unfold generated_id. split; [|by intros ->].
  intros H. apply (inj (String.app "img_")) in H.
  by apply (inj pretty) in H.
Qed.

End identifiers.

(** * The HTTP routes *)

Section more_routes.

Variable load_image : list Byte.byte → string + ndarray.

Lemma process_image_accepted files now_ms s :
  status_code (fst (process_image load_image files now_ms s)) = 200%nat →
  ∃ file image_array,
    files !! "image" = Some file ∧
    load_image (content file) = inr image_array ∧
    snd (process_image load_image files now_ms s)
    = snd (submit_image now_ms s image_array None).
Proof.
  unfold process_image.
  destruct (files !! "image") as [file|]; [|done].
  destruct (decide (filename file = "")); [done|].
  destruct (load_image (content file)) as [msg|image_array] eqn:Hload;
    [done|].
  intros _. exists file, image_array. simpl. done.
Qed.

(** X18: [POST /api/process] answers each request as follows, and
    touches the processor only when it answers 200. Without an ['image']
    part: 400 ['No image provided']. With an empty file name: 400
    ['No file selected']. When the upload cannot be decoded: 500 with the
    message of the exception. Otherwise: 200 with status ['submitted'] and
    the generated identifier, under which the decoded image is appended
    to the queue; the cache and the counters are left alone. *)
Theorem process_image_effect (files : gmap string upload) (now_ms : Z)
    (s : RealTimeProcessor) :
  let r := process_image load_image files now_ms s in
  (files !! "image" = None →
   r = (error_response 400 "No image provided", s)) ∧
  (∀ file, files !! "image" = Some file → filename file = "" →
   r = (error_response 400 "No file selected", s)) ∧
  (∀ file msg, files !! "image" = Some file → filename file ≠ "" →
   load_image (content file) = inl msg →
   r = (error_response 500 msg, s)) ∧
  (∀ file image_array, files !! "image" = Some file → filename file ≠ "" →
   load_image (content file) = inr image_array →
   fst r = mk_response 200
             (JFields (<["image_id" := PStr (generated_id now_ms)]>
                      (<["status" := PStr "submitted"]> ∅))) ∧
   processing_queue (snd r)
   = processing_queue s ++ [Some (generated_id now_ms, image_array)] ∧
   results_cache (snd r) = results_cache s ∧
   processed_images (stats (snd r)) = processed_images (stats s) ∧
   errors (stats (snd r)) = errors (stats s)) ∧
  (status_code (fst r) ≠ 200%nat → snd r = s).
Proof.
  unfold process_image. cbv zeta.
  destruct (files !! "image") as [file|] eqn:Hfile.
  - destruct (decide (filename file = "")) as [Hname|Hname].
    + repeat split; intros; simplify_eq; simpl in *; congruence.
    + destruct (load_image (content file)) as [msg|image_array] eqn:Hload.
      * repeat split; intros; simplify_eq; simpl in *; congruence.
      * repeat split; intros; simplify_eq; simpl in *; congruence.
  - repeat split; intros; simplify_eq; simpl in *; congruence.
Qed.

(** X19: every upload that [POST /api/process] accepts is processed
    successfully, provided the loader returns well-formed 128-by-128
    arrays: the worker iteration that takes it off the queue stores a
    ['success'] result with 8 qubits, 8 features, the compression ratio
    one quarter and the shape 128 by 128. *)
Theorem accepted_upload_succeeds (files : gmap string upload) (now_ms : Z)
    (s : RealTimeProcessor) (e : env) :
  (∀ bytes a, load_image bytes = inr a →
     wf_ndarray a ∧ nrows a = 128%nat ∧ ncols a = 128%nat) →
  (0 < max_workers s)%nat → is_running s = true →
  processing_queue s = [] →
  status_code (fst (process_image load_image files now_ms s)) = 200%nat →
  let s' := step (snd (process_image load_image files now_ms s)) (Work e) in
  let image_id := generated_id now_ms in
  cached_field s' image_id "status" = Some (PStr "success") ∧
  cached_field s' image_id "qubits_used" = Some (PInt 8) ∧
  cached_field s' image_id "feature_count" = Some (PInt 8) ∧
  cached_field s' image_id "compression_ratio" = Some (PFloat (1 / 4)) ∧
  cached_field s' image_id "image_shape" = Some (PShape 128 128) ∧
  processing_queue s' = [].
Proof.
  intros Hload Hw Hr Hq H200 s' image_id. subst s'.
  destruct (process_image_accepted files now_ms s H200)
    as (file & a & Hfile & Ha & ->).
  destruct (Hload _ _ Ha) as (Hwf & Hrows & Hcols).
  rewrite (work_step _ e image_id a []) by (simpl; by rewrite ?Hq).
  match goal with
  | |- context [_process_image e ?x image_id a] => set (s1 := x)
  end.
  destruct (try_process_returns e s1 image_id a Hwf) as [s2 Hs2]; [lia..|].
  apply try_process_inr in Hs2 as Hinv.
  destruct Hinv as (edge_map & features & _ & Hfeat & _ & ->).
  unfold _process_image. rewrite Hs2.
  split; [apply status_store_success|].
  rewrite !cached_field_store_success. unfold success_result.
  split; [|split; [|split; [|split]]].
  - lookup_field. do 3 f_equal. unfold qubits_of.
    rewrite (flatten_length _ Hwf). unfold size_of. rewrite Hrows, Hcols.
    by vm_compute.
  - lookup_field. do 3 f_equal.
    rewrite (quantum_feature_extraction_length _ _ Hfeat).
    rewrite texture_count_full by lia. done.
  - lookup_field. do 2 f_equal. unfold ratio_of.
    rewrite (flatten_length _ Hwf). unfold size_of. rewrite Hrows, Hcols.
    replace (compressed_size_of (128 * 128)) with (64 * 64)%nat
      by (vm_compute; reflexivity).
    rewrite !mult_INR, !INR_IZR_INZ.
    change (Z.of_nat 64) with 64%Z. change (Z.of_nat 128) with 128%Z.
    field.
  - lookup_field. by rewrite Hrows, Hcols.
  - done.
Qed.

End more_routes.

Lemma process_image_effect_witness :
  process_image black_loader
    (<["image" := mk_upload "" []]> ∅) 1700000000000 (new_processor 4)
  = (error_response 400 "No file selected", new_processor 4).
Proof.
  refine (proj1 (proj2 (process_image_effect black_loader
                          (<["image" := mk_upload "" []]> ∅) 1700000000000
                          (new_processor 4))) (mk_upload "" []) _ _).
  - reflexivity.
  - reflexivity.
Defined.

Lemma accepted_upload_succeeds_witness :
  let files := <["image" := mk_upload "cat.png" []]> ∅ in
  let s' := step (snd (process_image black_loader files 1700000000000
                         (new_processor 4))) (Work sample_env) in
  cached_field s' (generated_id 1700000000000) "status"
  = Some (PStr "success").
Proof.
  intros files s'.
  refine (proj1 (accepted_upload_succeeds black_loader files 1700000000000
                   (new_processor 4) sample_env _ _ _ _ _)).
  - intros bytes a [= <-]. split; [apply zeros_wf|]. split; reflexivity.
  - simpl. lia.
  - reflexivity.
  - reflexivity.
  - reflexivity.
Defined.

Section stored_entries.

Lemma edge_detection_wf a edge_map :
  quantum_edge_detection a = inr edge_map →
  shape edge_map = shape a ∧ wf_ndarray edge_map.
Proof.
  unfold quantum_edge_detection.
  destruct (np_gradient a Axis1) as [|gx] eqn:Ex; [done|].
  destruct (np_gradient a Axis0) as [|gy] eqn:Ey; [done|].
  apply np_gradient_shape in Ex as [Sx Wx], Ey as [Sy Wy].
  simpl. intros [= <-]. split.
  - unfold shape in *. simpl. done.
  - do 2 apply map_ndarray_wf. apply map2_ndarray_wf; congruence.
Qed.

(** X20: the entry stored by a successful run is consistent with itself:
    the edge map it holds has the dimensions recorded under
    ['image_shape'], which are those of the input, and the feature vector
    it holds has the length recorded under ['feature_count']. *)
Theorem stored_entry_consistent (e : env) (s : RealTimeProcessor)
    (image_id : string) (image_data : ndarray) :
  let s' := _process_image e s image_id image_data in
  cached_field s' image_id "status" = Some (PStr "success") →
  ∃ entry edge_rows features,
    results_cache s' !! image_id = Some entry ∧
    entry !! "edge_map" = Some (CMatrix edge_rows) ∧
    entry !! "features" = Some (CVector features) ∧
    cached_field s' image_id "image_shape"
    = Some (PShape (length edge_rows) (ncols image_data)) ∧
    length edge_rows = nrows image_data ∧
    Forall (λ r, length r = ncols image_data) edge_rows ∧
    cached_field s' image_id "feature_count"
    = Some (PInt (Z.of_nat (length features))).
Proof.
  intros s' Hok. subst s'.
  apply status_success_inv in Hok as (edge_map & features & E & _ & _ & ->).
  destruct (edge_detection_wf _ _ E) as [Hshape [Hlen Hrows]].
  injection Hshape as Hr Hc.
  eexists _, (rows edge_map), features.
  split; [simpl; apply lookup_insert_eq|]. unfold success_entry.
  split; [by lookup_field|]. split; [by lookup_field|].
  rewrite !cached_field_store_success. unfold success_result.
  split; [lookup_field; by rewrite Hlen, Hr|].
  split; [congruence|]. split; [by rewrite <- Hc|]. by lookup_field.
Qed.

Lemma stored_entry_consistent_witness :
  ∃ entry edge_rows,
    results_cache (_process_image sample_env (new_processor 4) "img_1"
                     step_image) !! "img_1" = Some entry ∧
    entry !! "edge_map" = Some (CMatrix edge_rows) ∧
    length edge_rows = 2%nat.
Proof.
  destruct (stored_entry_consistent sample_env (new_processor 4) "img_1"
              step_image)
    as (entry & edge_rows & features & H1 & H2 & _ & _ & H3 & _).
  - reflexivity.
  - by exists entry, edge_rows.
Defined.

End stored_entries.

(** * Edge detection on pixels that may be NaN *)

Section nan_pixels.















End nan_pixels.
